(** * zephyr_lwm2m_gen: the LwM2M object stub generator [gen.py]

    A shallow embedding of [gen.py] and the properties of its schema model,
    layout decisions and render pipeline.

    Modelling conventions.
    - Python [str] values are [string]s of 8-bit characters; the model covers
      ASCII text: [upper]/[lower] change the case of the letters a-z/A-Z and
      leave every other character alone, [\d] is 0-9.
    - Python [int] is [Z]; [math.log2] is the exact logarithm, which the
      double-precision one agrees with for arguments below [2^48].
    - The file store is the working directory of the run: the input document
      is looked up by its path, and a file is created under a name without
      slash or null character and of at most 255 characters.
    - A Python expression that may raise is a [result]; a generator is the
      list of fragments it yields together with the exception, if any, that
      ends it.
    - The ElementTree document is a tree of [Element]s; Python's [None] is
      the [None] of an option type. *)

From Stdlib Require Import ZArith Ascii String List Lia DecimalString
  DecimalZ.
From stdpp Require Import base gmap strings list.

Local Open Scope Z_scope.

(** ** Characters that string literals cannot hold directly *)

Definition nl : string := String "010"%char EmptyString.
Definition tab : string := String "009"%char EmptyString.
Definition dq : string := String "034"%char EmptyString.
Definition bsl : string := String "092"%char EmptyString.

(** ** Exceptions and the two effect shapes of the program *)

(** The exceptions a run can end with. [OSError] stands for the class and
    its subclasses, such as [FileNotFoundError]; [Exception msg] is
    [Exception(msg)]. *)
Inductive exn : Type :=
  | AttributeError
  | TypeError
  | ValueError
  | AssertionError
  | OSError
  | ParseError
  | Exception (msg : string).

Definition result (A : Type) : Type := (exn + A)%type.

Definition ret {A} (a : A) : result A := inr a.
Definition raise {A} (e : exn) : result A := inl e.

Definition bind {A B} (m : result A) (k : A -> result B) : result B :=
  match m with
  | inl e => inl e
  | inr a => k a
  end.

Notation "x <~ m ;; k" := (bind m (fun x => k))
  (at level 100, m at next level, right associativity).

(** [assert c] *)
Definition py_assert (c : bool) : result unit :=
  if c then ret tt else raise AssertionError.

(** Attribute or method access on a value that may be [None], or on an
    attribute that [__init__] may not have set. *)
Definition getattr {A} (o : option A) : result A :=
  match o with
  | Some a => ret a
  | None => raise AttributeError
  end.

Fixpoint mapM {A B} (f : A -> result B) (l : list A) : result (list B) :=
  match l with
  | [] => ret []
  | a :: l' => b <~ f a ;; bs <~ mapM f l' ;; ret (b :: bs)
  end.

(** A generator: the fragments yielded so far and how it ended. *)
Definition gen : Type := (list string * option exn)%type.

Definition gyield (s : string) : gen := ([s], None).
Definition gskip : gen := ([], None).
Definition graise (e : exn) : gen := ([], Some e).

Definition gseq (g1 g2 : gen) : gen :=
  match g1 with
  | (l1, None) => (l1 ++ fst g2, snd g2)
  | (l1, Some e) => (l1, Some e)
  end.

(** Evaluate an expression that may raise, then go on with its value. *)
Definition gbind {A} (m : result A) (k : A -> gen) : gen :=
  match m with
  | inl e => graise e
  | inr a => k a
  end.

Fixpoint gfor {A} (l : list A) (body : A -> gen) : gen :=
  match l with
  | [] => gskip
  | a :: l' => gseq (body a) (gfor l' body)
  end.

Notation "g1 >> g2" := (gseq g1 g2) (at level 65, right associativity).
Notation "x <- m ;>> k" := (gbind m (fun x => k))
  (at level 100, m at next level, right associativity).

(** ** Python string and integer primitives *)

Definition upper_ascii (c : ascii) : ascii :=
  let n := nat_of_ascii c in
  if ((97 <=? n) && (n <=? 122))%nat then ascii_of_nat (n - 32) else c.

Definition lower_ascii (c : ascii) : ascii :=
  let n := nat_of_ascii c in
  if ((65 <=? n) && (n <=? 90))%nat then ascii_of_nat (n + 32) else c.

Fixpoint map_string (f : ascii -> ascii) (s : string) : string :=
  match s with
  | EmptyString => EmptyString
  | String c s' => String (f c) (map_string f s')
  end.

(** [s.upper()] and [s.lower()] on ASCII text, where they change the
    letters [a-z] and [A-Z] one by one. Outside ASCII the methods of Python
    follow the Unicode case mappings, which may change the length of the
    text; the properties that depend on the mapping are stated for ASCII
    names. *)
Definition upper (s : string) : string := map_string upper_ascii s.
Definition lower (s : string) : string := map_string lower_ascii s.

(** [s.replace(old, new)] for one-character [old] and [new], the only use
    the program makes of it. *)
Definition replace (old new : ascii) (s : string) : string :=
  map_string (fun c => if Ascii.eqb c old then new else c) s.

(** [len(s)] *)
Definition len (s : string) : Z := Z.of_nat (String.length s).

(** ["{}".format(n)] for an [int] *)
Definition str_of_int (z : Z) : string := NilZero.string_of_int (Z.to_int z).

(** [o == "literal"] where [o] may be [None] *)
Definition opt_eqb (o : option string) (s : string) : bool :=
  match o with
  | Some t => String.eqb t s
  | None => false
  end.

(** The whitespace [int] skips around an ASCII literal: tab, line feed,
    vertical tab, form feed, carriage return and space. *)
Definition is_space (c : ascii) : bool :=
  let n := nat_of_ascii c in
  (((9 <=? n) && (n <=? 13)) || (n =? 32))%nat.

Definition is_digit (c : ascii) : bool :=
  let n := nat_of_ascii c in ((48 <=? n) && (n <=? 57))%nat.

Definition digit_val (c : ascii) : Z := Z.of_nat (nat_of_ascii c - 48).

Fixpoint lstrip (l : list ascii) : list ascii :=
  match l with
  | c :: l' => if is_space c then lstrip l' else l
  | [] => []
  end.

Definition strip (l : list ascii) : list ascii :=
  rev (lstrip (rev (lstrip l))).

(** The digits of a decimal literal: at least one digit, single underscores
    allowed between digits only. [prev] tells whether the previous character
    was a digit. *)
Fixpoint int_digits (prev : bool) (acc : Z) (l : list ascii) : option Z :=
  match l with
  | [] => if prev then Some acc else None
  | c :: l' =>
      if is_digit c then int_digits true (10 * acc + digit_val c) l'
      else if Ascii.eqb c "_"%char && prev then int_digits false acc l'
      else None
  end.

(** [int(s)] for a string: surrounding whitespace, an optional sign, decimal
    digits; anything else is a [ValueError]. *)
Definition py_int (s : string) : result Z :=
  let l := strip (list_ascii_of_string s) in
  let body sign r :=
    match int_digits false 0 r with
    | Some v => ret (sign * v)
    | None => raise ValueError
    end in
  match l with
  | "-"%char :: r => body (-1) r
  | "+"%char :: r => body 1 r
  | _ => body 1 l
  end.

(** [int(o)] where [o] may be [None]: [int(None)] is a [TypeError]. *)
Definition py_int_opt (o : option string) : result Z :=
  match o with
  | None => raise TypeError
  | Some s => py_int s
  end.

(** ** Backtracking regular expressions, as far as [range_regex] needs them

    A pattern is a sequence of items: a character class under a greedy
    quantifier, or the opening or closing of a named group. [re.match]
    anchors the pattern at the start of the string and tries the greedy
    choices first, giving back characters one at a time. *)

Inductive quant : Type := QOne | QOpt | QStar | QPlus.

Inductive re_item : Type :=
  | RChr (cls : ascii -> bool) (q : quant)
  | ROpen (name : string)
  | RClose (name : string).

(** Start and end offsets of the groups closed so far. *)
Definition re_env : Type := list (string * nat).

Definition q_min (q : quant) : nat :=
  match q with QOne | QPlus => 1 | QOpt | QStar => 0 end%nat.

Definition q_max (q : quant) (avail : nat) : nat :=
  match q with QOne | QOpt => Nat.min 1 avail | QStar | QPlus => avail end.

Fixpoint span_len (cls : ascii -> bool) (l : list ascii) : nat :=
  match l with
  | c :: l' => if cls c then S (span_len cls l') else O
  | [] => O
  end.

Fixpoint re_match (p : list re_item) (l : list ascii) (pos : nat)
    (env : re_env) {struct p} : option re_env :=
  match p with
  | [] => Some env
  | ROpen g :: p' => re_match p' l pos ((g +:+ "<", pos) :: env)
  | RClose g :: p' => re_match p' l pos ((g +:+ ">", pos) :: env)
  | RChr cls q :: p' =>
      let lo := q_min q in
      (fix try (n : nat) : option re_env :=
         match (if (lo <=? n)%nat
                then re_match p' (drop n l) (pos + n)%nat env
                else None) with
         | Some e => Some e
         | None => match n with
                   | O => None
                   | S n' => try n'
                   end
         end) (q_max q (span_len cls l))
  end.

Fixpoint env_get (k : string) (env : re_env) : option nat :=
  match env with
  | [] => None
  | (k', v) :: env' => if String.eqb k k' then Some v else env_get k env'
  end.

(** A match object: the subject string and the group offsets. *)
Record re_matchobj : Type := MatchObj { m_subject : string; m_env : re_env }.

Definition py_re_match (p : list re_item) (s : string) : option re_matchobj :=
  match re_match p (list_ascii_of_string s) 0%nat [] with
  | Some env => Some (MatchObj s env)
  | None => None
  end.

(** [m.group(name)] for a group that took part in the match. *)
Definition group (m : re_matchobj) (name : string) : string :=
  match env_get (name +:+ "<") (m_env m), env_get (name +:+ ">") (m_env m) with
  | Some a, Some b => String.substring a (b - a) (m_subject m)
  | _, _ => EmptyString
  end.

Definition is_chr (a : ascii) (c : ascii) : bool := Ascii.eqb c a.

(** An optional minus sign, one or more digits, an optional dot, any number
    of digits: [-?  \d+  \.?  \d*  ]. *)
Definition re_number : list re_item :=
  [RChr (is_chr "-") QOpt; RChr is_digit QPlus;
   RChr (is_chr ".") QOpt; RChr is_digit QStar].

(** [range_regex]: the pattern [^(?P<min>NUM)\.\.+(?P<max>NUM)], where NUM
    is the number pattern [re_number]. *)
Definition range_regex : list re_item :=
  [ROpen "min"] ++ re_number ++ [RClose "min"] ++
  [RChr (is_chr ".") QOne; RChr (is_chr ".") QPlus] ++
  [ROpen "max"] ++ re_number ++ [RClose "max"].

(** ** The ElementTree document *)

#[warnings="-register-all"] Inductive Element : Type :=
  | Elem (tag : string) (attrib : list (string * string))
         (text : option string) (children : list Element).

Definition tag (e : Element) : string := let 'Elem t _ _ _ := e in t.
Definition attrib (e : Element) : list (string * string) :=
  let 'Elem _ a _ _ := e in a.
Definition text (e : Element) : option string := let 'Elem _ _ x _ := e in x.
Definition children (e : Element) : list Element :=
  let 'Elem _ _ _ c := e in c.

(** [e.get(key)] *)
Fixpoint assoc (key : string) (l : list (string * string)) : option string :=
  match l with
  | [] => None
  | (k, v) :: l' => if String.eqb k key then Some v else assoc key l'
  end.

Definition get (e : Element) (key : string) : option string :=
  assoc key (attrib e).

(** [e.find("./t")] and [e.find("t")]: the first child with tag [t]. *)
Definition find (e : Element) (t : string) : option Element :=
  List.find (fun c => String.eqb (tag c) t) (children e).

(** [e.findall("./t1/t2")]: in document order. *)
Definition findall2 (e : Element) (t1 t2 : string) : list Element :=
  flat_map (fun c => List.filter (fun d => String.eqb (tag d) t2) (children c))
           (List.filter (fun c => String.eqb (tag c) t1) (children e)).

(** [e.find("./t").text]: an [AttributeError] when there is no such child. *)
Definition find_text (e : Element) (t : string) : result (option string) :=
  c <~ getattr (find e t) ;; ret (text c).

(** ** The schema model *)

(** An instance of the class [LWM2MResource]. [__init__] calls
    [is_exec(self)], which needs [operations] to be a string, so an instance
    always holds one; the other texts may be [None] (an empty element), and
    [signed] and [byte_size] are set for the type [Integer] only. *)
Record LWM2MResource : Type := mkResource {
  r_id : Z;
  r_name : option string;
  r_operations : string;
  r_singleton : bool;
  r_mandatory : bool;
  r_type : option string;
  r_description : option string;
  r_signed : option bool;
  r_byte_size : option Z
}.

Record LWM2MObject : Type := mkObject {
  o_name : option string;
  o_desc1 : option string;
  o_id : Z;
  o_objurn : option string;
  o_version : option string;
  o_singleton : bool;
  o_mandatory : bool;
  o_resources : list LWM2MResource
}.

(** [res.operations.upper() == "E"] *)
Definition is_exec (res : LWM2MResource) : bool :=
  String.eqb (upper (r_operations res)) "E".

(** [math.ceil(math.log2(v) / 8.0)], in exact arithmetic: [math.log2] raises
    [ValueError] outside the positive numbers, and for a positive integer
    [ceil(log2 v / 8) = ceil(ceil(log2 v) / 8)]. The program computes the
    logarithm in double precision. Below [2^48] the two agree: [v] converts
    to a double exactly, and the nearest integer above a power [2^(8m)] has
    a logarithm hundreds of units in the last place above [8m]. From [2^48]
    on they can differ: [2^56 + 1] converts to the double [2^56], for which
    the program derives 7 and this definition 8. The properties that
    depend on the value are stated below [2^48]. *)
Definition ceil_log2_div8 (v : Z) : result Z :=
  if v <=? 0 then raise ValueError else ret ((Z.log2_up v + 7) / 8).

(** The body of [if self.type == "Integer":] in [LWM2MResource.__init__]:
    the values of [signed] and [byte_size]. *)
Definition integer_attrs (res_node : Element) : result (bool * Z) :=
  range_str <~ find_text res_node "RangeEnumeration" ;;
  match range_str with
  | Some range_str =>
      m <~ getattr (py_re_match range_regex range_str) ;;
      min_val <~ py_int (group m "min") ;;
      max_val <~ py_int (group m "max") ;;
      let signed := min_val <? 0 in
      k <~ ceil_log2_div8 max_val ;;
      let byte_size := k * 8 in
      let byte_size := if signed then byte_size * 2 else byte_size in
      _ <~ py_assert (byte_size <=? 64) ;;
      ret (signed, byte_size)
  | None => ret (true, 32)
  end.

(** [LWM2MResource.__init__] *)
Definition LWM2MResource_init (res_node : Element) : result LWM2MResource :=
  id <~ py_int_opt (get res_node "ID") ;;
  name <~ find_text res_node "Name" ;;
  operations <~ find_text res_node "Operations" ;;
  multi <~ find_text res_node "MultipleInstances" ;;
  let singleton := opt_eqb multi "Single" in
  mand <~ find_text res_node "Mandatory" ;;
  let mandatory := opt_eqb mand "Mandatory" in
  type <~ find_text res_node "Type" ;;
  description <~ find_text res_node "Description" ;;
  attrs <~ (if opt_eqb type "Integer"
            then a <~ integer_attrs res_node ;; ret (Some (fst a), Some (snd a))
            else ret (None, None)) ;;
  operations <~ getattr operations ;;
  let self := mkResource id name operations singleton mandatory type
                description (fst attrs) (snd attrs) in
  _ <~ (if negb (is_exec self)
        then match type with
             | None => raise TypeError
             | Some t => py_assert (0 <? len t)
             end
        else ret tt) ;;
  ret self.

(** [LWM2MObject.__init__]; [obj_node] is [None] when the root has no
    [Object] child. *)
Definition LWM2MObject_init (obj_node : option Element) : result LWM2MObject :=
  obj_node <~ getattr obj_node ;;
  name <~ find_text obj_node "Name" ;;
  desc1 <~ find_text obj_node "Description1" ;;
  id_text <~ find_text obj_node "ObjectID" ;;
  id <~ py_int_opt id_text ;;
  objurn <~ find_text obj_node "ObjectURN" ;;
  version <~ find_text obj_node "ObjectVersion" ;;
  multi <~ find_text obj_node "MultipleInstances" ;;
  mand <~ find_text obj_node "Mandatory" ;;
  resources <~ mapM LWM2MResource_init (findall2 obj_node "Resources" "Item") ;;
  ret (mkObject name desc1 id objurn version (opt_eqb multi "Single")
         (opt_eqb mand "Mandatory") resources).

(** ** Derived identifiers *)

(** ["{}".format(o)] for a string that may be [None] *)
Definition str_of_opt (o : option string) : string :=
  match o with
  | Some s => s
  | None => "None"
  end.

(** [" " * n] *)
Fixpoint spaces (n : nat) : string :=
  match n with
  | O => EmptyString
  | S n' => String " "%char (spaces n')
  end.

Definition def_format (str : option string) : result string :=
  s <~ getattr str ;; ret (replace " " "_" (upper s)).

Definition name_format (str : option string) : result string :=
  s <~ getattr str ;; ret (replace " " "_" (lower s)).

Definition gen_obj_id_def (obj : LWM2MObject) : result string :=
  n <~ def_format (o_name obj) ;; ret ("LWM2M_OBJECT_" +:+ n +:+ "_ID").

Definition gen_max_id (obj : LWM2MObject) : result string :=
  n <~ def_format (o_name obj) ;; ret (n +:+ "_MAX_ID").

Definition gen_res_def_name (obj : LWM2MObject) (res : LWM2MResource)
    : result string :=
  a <~ def_format (o_name obj) ;;
  b <~ def_format (r_name res) ;;
  ret (a +:+ "_" +:+ b).

Definition gen_res_id_name (obj : LWM2MObject) (res : LWM2MResource)
    : result string :=
  n <~ gen_res_def_name obj res ;; ret (n +:+ "_ID").

Definition gen_res_max_name (obj : LWM2MObject) (res : LWM2MResource)
    : result string :=
  n <~ gen_res_def_name obj res ;; ret (n +:+ "_MAX").

(** ** The render pipeline *)

Definition gen_file_head (obj : LWM2MObject) : gen :=
  gyield ("/*" +:+ nl) >>
  gyield (" * This is a generated stub" +:+ nl) >>
  gyield (" *" +:+ nl) >>
  gyield (" * SPDX-License-Identifier: Apache-2.0" +:+ nl) >>
  gyield (" */" +:+ nl +:+ nl) >>
  (n <- name_format (o_name obj) ;>>
   gyield ("#define LOG_MODULE_NAME net_lwm2m_obj_" +:+ n +:+ nl)) >>
  gyield ("#define LOG_LEVEL CONFIG_LWM2M_LOG_LEVEL" +:+ nl +:+ nl) >>
  gyield ("#include <logging/log.h>" +:+ nl) >>
  gyield ("LOG_MODULE_REGISTER(LOG_MODULE_NAME);" +:+ nl +:+ nl) >>
  gyield ("#include <string.h>" +:+ nl) >>
  gyield ("#include <stdio.h>" +:+ nl) >>
  gyield ("#include <init.h>" +:+ nl +:+ nl) >>
  gyield ("#include " +:+ dq +:+ "lwm2m_object.h" +:+ dq +:+ nl) >>
  gyield ("#include " +:+ dq +:+ "lwm2m_engine.h" +:+ dq +:+ nl +:+ nl).

Definition fixme_default : string :=
  "// FIXME: This default value is generated. Please evaluate if it is sane and remove this comment."
  +:+ nl.

(** The first loop of [gen_res_defs]: one id definition per resource. *)
Definition gen_res_defs_ids (obj : LWM2MObject) : gen :=
  gfor (o_resources obj) (fun res =>
    n <- gen_res_id_name obj res ;>>
    gyield ("#define " +:+ n +:+ " " +:+ str_of_int (r_id res) +:+ nl)).

(** The last loop of [gen_res_defs]: the maximum-instance constant of each
    resource that is not a singleton. *)
Definition gen_res_defs_maxes (obj : LWM2MObject) : gen :=
  gfor (o_resources obj) (fun res =>
    if negb (r_singleton res) then
      max_name <- gen_res_max_name obj res ;>>
      gyield ("#ifdef CONFIG_" +:+ max_name +:+ nl) >>
      gyield ("#define " +:+ max_name +:+ " CONFIG_" +:+ max_name +:+ nl) >>
      gyield ("#else" +:+ nl) >>
      gyield fixme_default >>
      gyield ("#define " +:+ max_name +:+ " 1" +:+ nl) >>
      gyield ("#endif" +:+ nl +:+ nl)
    else gskip).

Definition gen_res_defs (obj : LWM2MObject) : gen :=
  gyield ("// FIXME: This should probably be defined elsewhere" +:+ nl) >>
  (d <- gen_obj_id_def obj ;>>
   gyield ("#define " +:+ d +:+ " " +:+ str_of_int (o_id obj) +:+ nl +:+ nl)) >>
  gyield ("/* " +:+ str_of_opt (o_name obj) +:+ " resource IDs */" +:+ nl) >>
  gen_res_defs_ids obj >>
  (m <- gen_max_id obj ;>>
   gyield ("#define " +:+ m +:+ " "
           +:+ str_of_int (Z.of_nat (length (o_resources obj))) +:+ nl)) >>
  gyield nl >>
  (if negb (o_singleton obj) then
     conf_name <- (n <~ def_format (o_name obj) ;;
                   ret ("CONFIG_LWM2M_" +:+ n +:+ "_INSTANCE_COUNT")) ;>>
     gyield ("#ifdef " +:+ conf_name +:+ nl) >>
     gyield ("#define MAX_INSTANCE_COUNT " +:+ conf_name +:+ nl) >>
     gyield ("#else" +:+ nl) >>
     gyield fixme_default >>
     gyield ("#define MAX_INSTANCE_COUNT 1" +:+ nl) >>
     gyield ("#endif" +:+ nl +:+ nl)
   else gskip) >>
  gen_res_defs_maxes obj.

(** The first loop of [gen_res_inst_count]: [nr_exec] and [multi_resources]. *)
Definition count_step (acc : Z * list LWM2MResource) (res : LWM2MResource)
    : Z * list LWM2MResource :=
  let '(nr_exec, multi_resources) := acc in
  if is_exec res then (nr_exec + 1, multi_resources)
  else if negb (r_singleton res) then (nr_exec, multi_resources ++ [res])
  else (nr_exec, multi_resources).

Definition count_loop (obj : LWM2MObject) : Z * list LWM2MResource :=
  fold_left count_step (o_resources obj) (0, []).

Definition gen_res_inst_count (obj : LWM2MObject) : gen :=
  let '(nr_exec, multi_resources) := count_loop obj in
  let nr_multi := Z.of_nat (length multi_resources) in
  gyield ("/*" +:+ nl) >>
  gyield (" * Calculate resource instances as follows:" +:+ nl) >>
  gyield (" * start with DEVICE_MAX_ID" +:+ nl) >>
  gyield (" * subtract EXEC resources (" +:+ str_of_int nr_exec +:+ ")" +:+ nl) >>
  gyield (" * subtract MULTI resources because their counts include 0 resource ("
          +:+ str_of_int nr_multi +:+ ")" +:+ nl) >>
  gfor multi_resources (fun res =>
    n <- gen_res_max_name obj res ;>> gyield (" * add " +:+ n +:+ nl)) >>
  gyield (" */" +:+ nl) >>
  (m <- gen_max_id obj ;>>
   gyield ("#define RESOURCE_INSTANCE_COUNT (" +:+ m +:+ " - "
           +:+ str_of_int nr_exec +:+ " - " +:+ str_of_int nr_multi)) >>
  (if 0 <? nr_multi then
     gfor multi_resources (fun res =>
       n <- gen_res_max_name obj res ;>>
       gyield (" " +:+ bsl +:+ nl +:+ spaces 33 +:+ "+ " +:+ n))
   else gskip) >>
  gyield (")" +:+ nl).

Definition gen_data_struct_var_name (obj : LWM2MObject) : result string :=
  n <~ name_format (o_name obj) ;; ret (n +:+ "_data").

Definition gen_data_struct_type (obj : LWM2MObject) : result string :=
  v <~ gen_data_struct_var_name obj ;; ret ("struct " +:+ v +:+ "_t").

Definition unhandled : exn := Exception "Unhandled / bad resource type".

(** The [if]/[elif] chain in the loop of [gen_data_struct]: [typ] and
    [typ_suffix] of a field that is not an execute field. *)
Definition member_type (res : LWM2MResource) : result (string * string) :=
  let typ_suffix := EmptyString in
  let data_len := 64 in
  if opt_eqb (r_type res) "String" then
    ret ("char", "[" +:+ str_of_int data_len +:+ "]")
  else if opt_eqb (r_type res) "Integer" then
    signed <~ getattr (r_signed res) ;;
    let prefix := if signed : bool then EmptyString else "u" in
    byte_size <~ getattr (r_byte_size res) ;;
    ret (prefix +:+ "int" +:+ str_of_int byte_size +:+ "_t", typ_suffix)
  else if opt_eqb (r_type res) "Objlnk" then
    ret ("struct lwm2m_objlnk", typ_suffix)
  else if opt_eqb (r_type res) "Float" then
    ret ("float32_value_t", typ_suffix)
  else if opt_eqb (r_type res) "Opaque" then
    ret ("uint8_t", "[" +:+ str_of_int data_len +:+ "]")
  else if opt_eqb (r_type res) "Time" then
    ret ("uint32_t", typ_suffix)
  else if opt_eqb (r_type res) "Boolean" then
    ret ("bool", typ_suffix)
  else raise unhandled.

Definition gen_data_struct (obj : LWM2MObject) : gen :=
  (t <- gen_data_struct_type obj ;>> gyield (t +:+ " {" +:+ nl)) >>
  gfor (o_resources obj) (fun res =>
    if is_exec res then gskip
    else
      ts <- member_type res ;>>
      n <- name_format (r_name res) ;>>
      gyield (tab +:+ fst ts +:+ " " +:+ n +:+ snd ts +:+ ";" +:+ nl)) >>
  (_ <- name_format (o_name obj) ;>> gyield ("};" +:+ nl +:+ nl)) >>
  let arr_suffix := if negb (o_singleton obj) then "[MAX_INSTANCE_COUNT]"
                    else EmptyString in
  (t <- gen_data_struct_type obj ;>>
   v <- gen_data_struct_var_name obj ;>>
   gyield ("static " +:+ t +:+ " " +:+ v +:+ arr_suffix +:+ ";" +:+ nl +:+ nl)).

(** The [if]/[elif] chain of [gen_field]: the symbolic type tag. *)
Definition field_type_tag (res : LWM2MResource) : result string :=
  if opt_eqb (r_type res) "String" then ret "STRING"
  else if opt_eqb (r_type res) "Integer" then
    signed <~ getattr (r_signed res) ;;
    let prefix := if signed : bool then "S" else "U" in
    byte_size <~ getattr (r_byte_size res) ;;
    ret (prefix +:+ str_of_int byte_size)
  else if opt_eqb (r_type res) "Objlnk" then ret "OBJLNK"
  else if opt_eqb (r_type res) "Float" then ret "FLOAT32"
  else if opt_eqb (r_type res) "Opaque" then ret "OPAQUE"
  else if opt_eqb (r_type res) "Time" then ret "TIME"
  else if opt_eqb (r_type res) "Boolean" then ret "BOOL"
  else raise unhandled.

Definition gen_field (obj : LWM2MObject) (res : LWM2MResource)
    : result string :=
  if is_exec res then
    let suffix := if r_mandatory res then EmptyString else "_OPT" in
    n <~ gen_res_id_name obj res ;;
    ret ("OBJ_FIELD_EXECUTE" +:+ suffix +:+ "(" +:+ n +:+ ")")
  else
    let ops := if r_mandatory res then r_operations res
               else r_operations res +:+ "_OPT" in
    typ <~ field_type_tag res ;;
    n <~ gen_res_id_name obj res ;;
    ret ("OBJ_FIELD_DATA(" +:+ n +:+ ", " +:+ ops +:+ ", " +:+ typ +:+ ")").

(** [enumerate(l)] *)
Fixpoint enumerate_from {A} (i : Z) (l : list A) : list (Z * A) :=
  match l with
  | [] => []
  | a :: l' => (i, a) :: enumerate_from (i + 1) l'
  end.

Definition enumerate {A} (l : list A) : list (Z * A) := enumerate_from 0 l.

Definition gen_fields (obj : LWM2MObject) : gen :=
  let max_inst := if o_singleton obj then EmptyString else "[MAX_INSTANCE_COUNT]" in
  (n <- name_format (o_name obj) ;>>
   gyield ("static struct lwm2m_engine_obj " +:+ n +:+ ";" +:+ nl)) >>
  gyield ("static struct lwm2m_engine_obj_field fields[] = {" +:+ nl) >>
  gfor (enumerate (o_resources obj)) (fun ir =>
    (f <- gen_field obj (snd ir) ;>> gyield (tab +:+ f)) >>
    (if fst ir <? Z.of_nat (length (o_resources obj)) - 1 then gyield ","
     else gskip) >>
    gyield nl) >>
  gyield ("};" +:+ nl +:+ nl) >>
  gyield ("static struct lwm2m_engine_obj_inst inst" +:+ max_inst +:+ ";" +:+ nl) >>
  (m <- gen_max_id obj ;>>
   gyield ("static struct lwm2m_engine_res res" +:+ max_inst +:+ "[" +:+ m
           +:+ "];" +:+ nl)) >>
  gyield ("static struct lwm2m_engine_res_inst res_inst" +:+ max_inst
          +:+ "[RESOURCE_INSTANCE_COUNT];" +:+ nl) >>
  gyield nl.

Definition CHECK_AVAIL : string :=
  String.concat nl
    [ EmptyString;
      "    /* Check that there is no other instance with this ID */";
      tab +:+ "for (index = 0; index < ARRAY_SIZE(inst); index++) {";
      tab +:+ tab +:+ "if (inst[index].obj && inst[index].obj_inst_id == obj_inst_id) {";
      tab +:+ tab +:+ tab +:+ "LOG_ERR(" +:+ dq +:+ "Can not create instance - " +:+ dq;
      tab +:+ tab +:+ tab +:+ tab +:+ dq +:+ "already existing: %u" +:+ dq +:+ ", obj_inst_id);";
      tab +:+ tab +:+ tab +:+ "return NULL;";
      tab +:+ tab +:+ "}";
      EmptyString;
      tab +:+ tab +:+ "/* Save first available slot index */";
      tab +:+ tab +:+ "if (avail < 0 && !inst[index].obj) {";
      tab +:+ tab +:+ tab +:+ "avail = index;";
      tab +:+ tab +:+ "}";
      tab +:+ "}";
      EmptyString;
      tab +:+ "if (avail < 0) {";
      tab +:+ tab +:+ "LOG_ERR(" +:+ dq +:+ "Can not create instance - no more room: %u" +:+ dq +:+ ",";
      tab +:+ tab +:+ tab +:+ "obj_inst_id);";
      tab +:+ tab +:+ "return NULL;";
      tab +:+ "}";
      "    " ].

Definition gen_exec_cb_name (res : LWM2MResource) : result string :=
  n <~ name_format (r_name res) ;; ret ("state_" +:+ n +:+ "_exec_cb").

Definition gen_exec_cbs (obj : LWM2MObject) : gen :=
  gfor (o_resources obj) (fun res =>
    if negb (is_exec res) || negb (r_mandatory res) then gskip
    else
      (c <- gen_exec_cb_name res ;>>
       gyield ("static int " +:+ c +:+ "(uint16_t obj_inst_id)" +:+ nl)) >>
      gyield ("{" +:+ nl) >>
      gyield (tab +:+ "/* FIXME: Add exec callback implementation here */" +:+ nl) >>
      gyield (tab +:+ "return 0;" +:+ nl) >>
      gyield ("}" +:+ nl +:+ nl)).

(** The part of [gen_create_func] after the branch on [obj.singleton], which
    fixes the four local strings it uses. *)
Definition gen_create_body (obj : LWM2MObject)
    (data_str res_str res_inst_str inst_str : string) : gen :=
  gyield (tab +:+ "(void)memset(" +:+ res_str +:+ ", 0," +:+ nl) >>
  gyield (tab +:+ spaces 13 +:+ "sizeof(" +:+ res_str +:+ "[0]) * ARRAY_SIZE("
          +:+ res_str +:+ "));" +:+ nl +:+ nl) >>
  gyield (tab +:+ "init_res_instance(" +:+ res_inst_str +:+ ", ARRAY_SIZE("
          +:+ res_inst_str +:+ "));" +:+ nl +:+ nl) >>
  gyield (tab +:+ "/* initialize instance resource data */" +:+ nl) >>
  gfor (o_resources obj) (fun res =>
    if is_exec res then
      (n <- gen_res_id_name obj res ;>>
       gyield (tab +:+ "INIT_OBJ_RES_EXECUTE(" +:+ n +:+ ", " +:+ res_str
               +:+ ", i," +:+ nl)) >>
      gyield (tab +:+ spaces 17) >>
      (if r_mandatory res then (c <- gen_exec_cb_name res ;>> gyield c)
       else gyield "NULL") >>
      gyield (");" +:+ nl)
    else
      let prefix := EmptyString in
      let prefix := if negb (r_mandatory res) then prefix +:+ "OPT"
                    else prefix in
      let prefix := if negb (r_singleton res) then "MULTI_" +:+ prefix
                    else prefix in
      let macro := "INIT_OBJ_RES_" +:+ prefix +:+ "DATA" in
      let sp := spaces (String.length macro) in
      (n <- gen_res_id_name obj res ;>>
       gyield (tab +:+ macro +:+ "(" +:+ n +:+ "," +:+ nl)) >>
      gyield (tab +:+ sp +:+ " " +:+ res_str +:+ ", i, " +:+ res_inst_str
              +:+ ", j") >>
      (if negb (r_singleton res) then
         gyield ("," +:+ nl) >>
         (m <- gen_res_max_name obj res ;>>
          gyield (tab +:+ sp +:+ " " +:+ m +:+ ", false"))
       else gskip) >>
      (if r_mandatory res then
         gyield ("," +:+ nl) >>
         (n <- name_format (r_name res) ;>>
          gyield (tab +:+ sp +:+ " &" +:+ data_str +:+ n +:+ "," +:+ nl)) >>
         (n <- name_format (r_name res) ;>>
          gyield (tab +:+ sp +:+ " sizeof(" +:+ data_str +:+ n +:+ ")"))
       else gskip) >>
      gyield (");" +:+ nl)) >>
  gyield (nl +:+ tab +:+ inst_str +:+ ".resources = " +:+ res_str +:+ ";" +:+ nl) >>
  gyield (tab +:+ inst_str +:+ ".resource_count = i;" +:+ nl) >>
  gyield (nl +:+ tab +:+ "LOG_DBG(" +:+ dq +:+ "Create " +:+ str_of_opt (o_name obj)
          +:+ " instance: %d" +:+ dq +:+ ", obj_inst_id);" +:+ nl +:+ nl) >>
  gyield (tab +:+ "return &" +:+ inst_str +:+ ";" +:+ nl) >>
  gyield ("}" +:+ nl +:+ nl).

Definition gen_create_func (obj : LWM2MObject) : gen :=
  (n <- name_format (o_name obj) ;>>
   gyield ("static struct lwm2m_engine_obj_inst *" +:+ n
           +:+ "_create(uint16_t obj_inst_id)" +:+ nl)) >>
  gyield ("{" +:+ nl) >>
  gyield (tab +:+ "int i = 0;" +:+ nl) >>
  gyield (tab +:+ "int j = 0;" +:+ nl +:+ nl) >>
  gyield (tab +:+ "/* Set default values */" +:+ nl) >>
  (if negb (o_singleton obj) then
     gyield (tab +:+ "int index = -1;" +:+ nl) >>
     gyield (tab +:+ "int avail = -1;" +:+ nl) >>
     (t <- gen_data_struct_type obj ;>>
      gyield (tab +:+ t +:+ " *instance;" +:+ nl)) >>
     gyield CHECK_AVAIL >>
     (v <- gen_data_struct_var_name obj ;>>
      gyield (tab +:+ "instance = &" +:+ v +:+ "[avail];" +:+ nl)) >>
     (v <- gen_data_struct_var_name obj ;>>
      gyield (tab +:+ "(void)memset(instance, 0, sizeof(" +:+ v
              +:+ "[avail]));" +:+ nl)) >>
     gen_create_body obj "instance->" "res[avail]" "res_inst[avail]"
       "inst[avail]"
   else
     (v <- gen_data_struct_var_name obj ;>>
      gyield (tab +:+ "(void)memset(&" +:+ v +:+ ", 0, sizeof(" +:+ v +:+ "));"
              +:+ nl)) >>
     (data_str <- (v <~ gen_data_struct_var_name obj ;; ret (v +:+ ".")) ;>>
      gen_create_body obj data_str "res" "res_inst" "inst")).

Definition gen_init_func (obj : LWM2MObject) : gen :=
  (n <- name_format (o_name obj) ;>>
   gyield ("static int lwm2m_" +:+ n +:+ "_init(const struct device *dev)" +:+ nl)) >>
  gyield ("{" +:+ nl) >>
  (if o_singleton obj then
     gyield (tab +:+ "struct lwm2m_engine_obj_inst *obj_inst;" +:+ nl) >>
     gyield (tab +:+ "int ret;" +:+ nl +:+ nl)
   else gskip) >>
  (n <- name_format (o_name obj) ;>>
   d <- gen_obj_id_def obj ;>>
   gyield (tab +:+ n +:+ ".obj_id = " +:+ d +:+ ";" +:+ nl)) >>
  (n <- name_format (o_name obj) ;>>
   gyield (tab +:+ n +:+ ".fields = fields;" +:+ nl)) >>
  (n <- name_format (o_name obj) ;>>
   gyield (tab +:+ n +:+ ".field_count = ARRAY_SIZE(fields);" +:+ nl)) >>
  (if o_singleton obj then
     n <- name_format (o_name obj) ;>>
     gyield (tab +:+ n +:+ ".max_instance_count = 1;" +:+ nl)
   else
     n <- name_format (o_name obj) ;>>
     gyield (tab +:+ n +:+ ".max_instance_count = MAX_INSTANCE_COUNT;" +:+ nl)) >>
  (n <- name_format (o_name obj) ;>>
   gyield (tab +:+ n +:+ ".create_cb = " +:+ n +:+ "_create;" +:+ nl)) >>
  (n <- name_format (o_name obj) ;>>
   gyield (tab +:+ "lwm2m_register_obj(&" +:+ n +:+ ");" +:+ nl +:+ nl)) >>
  (if o_singleton obj then
     gyield (tab +:+ "/* auto create the only instance */" +:+ nl) >>
     gyield (tab +:+ "obj_inst = NULL;" +:+ nl) >>
     gyield (tab +:+ "ret = lwm2m_create_obj_inst(") >>
     (d <- gen_obj_id_def obj ;>> gyield (d +:+ ", 0, &obj_inst);" +:+ nl)) >>
     gyield (tab +:+ "if (ret < 0) {" +:+ nl) >>
     gyield (tab +:+ tab +:+ "LOG_DBG(" +:+ dq +:+ "Create LWM2M instance 0 error: %d"
             +:+ dq +:+ ", ret);" +:+ nl) >>
     gyield (tab +:+ "}" +:+ nl +:+ nl) >>
     gyield (tab +:+ "return ret;" +:+ nl)
   else gyield (tab +:+ "return 0;" +:+ nl)) >>
  gyield ("}" +:+ nl +:+ nl) >>
  (n <- name_format (o_name obj) ;>>
   gyield ("SYS_INIT(lwm2m_" +:+ n +:+ "_init, APPLICATION, ")) >>
  gyield ("CONFIG_KERNEL_INIT_PRIORITY_DEFAULT);" +:+ nl).

(** ** The driver *)

(** A file is a well-formed XML document, kept parsed, or any other text. *)
Inductive content : Type :=
  | XmlDoc (root : Element)
  | Text (data : string).

(** The files by path and the lines printed so far. The run takes place in
    a working directory that may be written and has no subdirectory. *)
Record World : Type := mkWorld {
  files : gmap string content;
  stdout : list string
}.

(** [ET.parse(path).getroot()] *)
Definition ET_parse (fs : gmap string content) (path : string)
    : result Element :=
  match fs !! path with
  | None => raise OSError
  | Some (Text _) => raise ParseError
  | Some (XmlDoc root) => ret root
  end.

(** The eight [f.writelines(...)] calls of [main], in order. *)
Definition render (obj : LWM2MObject) : gen :=
  gen_file_head obj >> gen_res_defs obj >> gen_res_inst_count obj >>
  gen_data_struct obj >> gen_fields obj >> gen_exec_cbs obj >>
  gen_create_func obj >> gen_init_func obj.

(** Whether [open(name, "w")] opens a file in the working directory. A name
    with a null character is a [ValueError]. A name with a slash lies in a
    directory that does not exist, and a name of more than 255 characters is
    too long for the file system: both are an [OSError] (the first its
    subclass [FileNotFoundError]). *)
Definition open_w (name : string) : result unit :=
  let l := list_ascii_of_string name in
  if existsb (Ascii.eqb "000"%char) l then raise ValueError
  else if existsb (Ascii.eqb "/"%char) l || (255 <? String.length name)%nat
       then raise OSError
  else ret tt.

(** [with open(name, "w") as f: ...]: when the file cannot be opened the
    block is not entered and nothing is written. Otherwise the file is
    created or truncated, the fragments yielded before the block ends are
    written, and the file is closed whether or not the block raised. *)
Definition with_open_w (name : string) (body : gen) (w : World)
    : World * result unit :=
  match open_w name with
  | inl e => (w, raise e)
  | inr _ =>
      (mkWorld
         (<[name := Text (String.concat EmptyString (fst body))]> (files w))
         (stdout w),
       match snd body with
       | None => ret tt
       | Some e => raise e
       end)
  end.

Definition usage : list string :=
  [ "No argument given. The path XML file descirbing";
    "the LWM2M object in question is expected as argument";
    nl +:+ "Exampel 'gen.py 3.xml'" ].

Definition main (argv : list string) (w : World) : World * result unit :=
  if (length argv <? 2)%nat then
    (mkWorld (files w) (stdout w ++ usage), ret tt)
  else
    match ET_parse (files w) (nth 1 argv EmptyString) with
    | inl e => (w, raise e)
    | inr root =>
        match LWM2MObject_init (find root "Object") with
        | inl e => (w, raise e)
        | inr obj =>
            match name_format (o_name obj) with
            | inl e => (w, raise e)
            | inr n => with_open_w ("lwm2m_obj_" +:+ n +:+ "_stub.c") (render obj) w
            end
        end
    end.

(** ** Notions used to state the properties *)

(** The object and all its resources carry a name. *)
Definition is_some {A} (o : option A) : bool :=
  match o with
  | Some _ => true
  | None => false
  end.

Definition named (obj : LWM2MObject) : bool :=
  is_some (o_name obj) && forallb (fun r => is_some (r_name r)) (o_resources obj).

(** The seven spellings the two type dispatches know. *)
Definition known_types : list string :=
  ["String"; "Integer"; "Objlnk"; "Float"; "Opaque"; "Time"; "Boolean"].

Definition known_type (t : option string) : bool :=
  existsb (opt_eqb t) known_types.

(** What [LWM2MResource.__init__] guarantees about the instance it builds:
    [signed] and [byte_size] are set exactly for the type [Integer], and a
    field that is not an execute field has a non-empty type. *)
Definition res_inv (r : LWM2MResource) : bool :=
  (if opt_eqb (r_type r) "Integer"
   then is_some (r_signed r) && is_some (r_byte_size r)
   else negb (is_some (r_signed r)) && negb (is_some (r_byte_size r))) &&
  (is_exec r || match r_type r with
                | Some t => negb (String.eqb t EmptyString)
                | None => false
                end).

(** The exceptions [LWM2MObject.__init__] can end with; the program has no
    exception class of its own for a malformed document. *)
Definition SchemaError (e : exn) : Prop :=
  e = AttributeError \/ e = TypeError \/ e = ValueError \/ e = AssertionError.

(** The results of [def_format] and [name_format] on a string. *)
Definition DEF (s : string) : string := replace " " "_" (upper s).
Definition NAME (s : string) : string := replace " " "_" (lower s).

(** One added term of RESOURCE_INSTANCE_COUNT, on its continuation line. *)
Definition cont_line (n : string) : string :=
  " " +:+ bsl +:+ nl +:+ spaces 33 +:+ "+ " +:+ n.

(** The right-hand side of a generated [#define]: macro names, numbers,
    subtraction, and an addition written on a continuation line. *)
Inductive cexpr : Type :=
  | CSym (name : string)
  | CNum (n : Z)
  | CSub (a b : cexpr)
  | CAdd (a b : cexpr).

Fixpoint show (e : cexpr) : string :=
  match e with
  | CSym s => s
  | CNum n => str_of_int n
  | CSub a b => show a +:+ " - " +:+ show b
  | CAdd a b => show a +:+ " " +:+ bsl +:+ nl +:+ spaces 33 +:+ "+ " +:+ show b
  end.

Fixpoint eval (env : string -> Z) (e : cexpr) : Z :=
  match e with
  | CSym s => env s
  | CNum n => n
  | CSub a b => eval env a - eval env b
  | CAdd a b => eval env a + eval env b
  end.

(** [max_id - nr_exec - nr_multi + m1 + ... + mk], associated to the left. *)
Definition count_expr (max_id : string) (nr_exec nr_multi : Z)
    (max_names : list string) : cexpr :=
  fold_left (fun e n => CAdd e (CSym n)) max_names
    (CSub (CSub (CSym max_id) (CNum nr_exec)) (CNum nr_multi)).

Definition sum_env (env : string -> Z) (names : list string) : Z :=
  fold_right (fun n acc => env n + acc) 0 names.

Definition exec_fields (obj : LWM2MObject) : list LWM2MResource :=
  List.filter is_exec (o_resources obj).

Definition multi_data_fields (obj : LWM2MObject) : list LWM2MResource :=
  List.filter (fun r => negb (is_exec r) && negb (r_singleton r))
    (o_resources obj).



(** The five fragments of one execute callback stub. *)
Definition exec_cb_stub (cb_name : string) : list string :=
  [ "static int " +:+ cb_name +:+ "(uint16_t obj_inst_id)" +:+ nl;
    "{" +:+ nl;
    tab +:+ "/* FIXME: Add exec callback implementation here */" +:+ nl;
    tab +:+ "return 0;" +:+ nl;
    "}" +:+ nl +:+ nl ].

(** The elements every object and every resource item is read from. *)
Definition obj_required : list string :=
  ["Name"; "Description1"; "ObjectID"; "ObjectURN"; "ObjectVersion";
   "MultipleInstances"; "Mandatory"].

Definition res_required : list string :=
  ["Name"; "Operations"; "MultipleInstances"; "Mandatory"; "Type";
   "Description"].

Definition lacks (e : Element) (tags : list string) : bool :=
  existsb (fun t => negb (is_some (find e t))) tags.

Definition missing_required (root : Element) : bool :=
  match find root "Object" with
  | None => true
  | Some o =>
      lacks o obj_required ||
      existsb (fun item =>
                 negb (is_some (get item "ID")) || lacks item res_required)
              (findall2 o "Resources" "Item")
  end.

(** The range an item declares, if any. *)
Definition declared_range (res_node : Element) : option string :=
  match find res_node "RangeEnumeration" with
  | Some e => text e
  | None => None
  end.

(** ** Sample documents *)

Definition leaf (t : string) (x : option string) : Element := Elem t [] x [].

Definition sample_item (id name ops multi mand : string)
    (typ range : option string) : Element :=
  Elem "Item" [("ID", id)] None
    [ leaf "Name" (Some name); leaf "Operations" (Some ops);
      leaf "MultipleInstances" (Some multi); leaf "Mandatory" (Some mand);
      leaf "Type" typ; leaf "RangeEnumeration" range; leaf "Units" None;
      leaf "Description" (Some "text") ].

Definition sample_object (items : list Element) : Element :=
  Elem "Object" [("ObjectType", "MODefinition")] None
    [ leaf "Name" (Some "Test Object"); leaf "Description1" (Some "text");
      leaf "ObjectID" (Some "9999"); leaf "ObjectURN" (Some "urn:oma:lwm2m:x:9999");
      leaf "ObjectVersion" (Some "1.0");
      leaf "MultipleInstances" (Some "Multiple");
      leaf "Mandatory" (Some "Mandatory"); Elem "Resources" [] None items ].

Definition sample_doc (items : list Element) : Element :=
  Elem "LWM2M" [] None [sample_object items].

(** An unsigned 8-bit field, a mandatory execute field, and an optional
    multi-instance integer field without a range; the ids are not 0, 1, 2. *)
Definition sample_items : list Element :=
  [ sample_item "5" "Field A" "RW" "Single" "Mandatory" (Some "Integer")
      (Some "0..255");
    sample_item "17" "Field B" "E" "Single" "Mandatory" (Some "String") None;
    sample_item "18" "Field C" "R" "Multiple" "Optional" (Some "Integer") None ].

Definition sample_root : Element := sample_doc sample_items.

Definition sample_res_a : LWM2MResource :=
  mkResource 5 (Some "Field A") "RW" true true (Some "Integer") (Some "text")
    (Some false) (Some 8).

Definition sample_res_b : LWM2MResource :=
  mkResource 17 (Some "Field B") "E" true true (Some "String") (Some "text")
    None None.

Definition sample_res_c : LWM2MResource :=
  mkResource 18 (Some "Field C") "R" false false (Some "Integer") (Some "text")
    (Some true) (Some 32).

Definition sample_obj : LWM2MObject :=
  mkObject (Some "Test Object") (Some "text") 9999 (Some "urn:oma:lwm2m:x:9999")
    (Some "1.0") false true [sample_res_a; sample_res_b; sample_res_c].

Definition sample_argv : list string := ["gen.py"; "in.xml"].

Definition sample_world (root : Element) : World :=
  mkWorld {[ "in.xml" := XmlDoc root ]} [].

(** An integer field whose range needs seventeen bits. *)
Definition wide_item : Element :=
  sample_item "7" "Counter" "RW" "Single" "Mandatory" (Some "Integer")
    (Some "0..100000").

Definition field_a_item : Element :=
  sample_item "5" "Field A" "RW" "Single" "Mandatory" (Some "Integer")
    (Some "0..255").

(** A data field and an execute field of a type outside the enumeration. *)
Definition corge_root : Element :=
  sample_doc
    [ field_a_item;
      sample_item "6" "Field X" "RW" "Single" "Mandatory" (Some "Corge") None ].

Definition corge_res : LWM2MResource :=
  mkResource 6 (Some "Field X") "RW" true true (Some "Corge") (Some "text")
    None None.

Definition corge_obj : LWM2MObject :=
  mkObject (Some "Test Object") (Some "text") 9999 (Some "urn:oma:lwm2m:x:9999")
    (Some "1.0") false true [sample_res_a; corge_res].

Definition corge_exec_root : Element :=
  sample_doc
    [ field_a_item;
      sample_item "6" "Field X" "E" "Single" "Mandatory" (Some "Corge") None ].




(** An item without its [Mandatory] element. *)
Definition no_mandatory_root : Element :=
  sample_doc
    [ Elem "Item" [("ID", "1")] None
        [ leaf "Name" (Some "Field A"); leaf "Operations" (Some "RW");
          leaf "MultipleInstances" (Some "Single");
          leaf "Type" (Some "String"); leaf "RangeEnumeration" None;
          leaf "Description" (Some "text") ] ].

Definition stub_path : string := "lwm2m_obj_test_object_stub.c".

(** ** Notions used to state the further properties *)

(** A string as the list of its characters. *)
Definition chars (s : string) : list ascii := list_ascii_of_string s.

(** [s.isascii()] *)
Definition isascii (s : string) : bool :=
  forallb (fun c => (nat_of_ascii c <? 128)%nat) (chars s).

(** What [def_format] and [name_format] do to one character. *)
Definition def_char (c : ascii) : ascii :=
  let u := upper_ascii c in if Ascii.eqb u " " then "_"%char else u.
Definition name_char (c : ascii) : ascii :=
  let u := lower_ascii c in if Ascii.eqb u " " then "_"%char else u.

(** The alternatives of one quantified item, tried from [n] characters
    down to [lo]. *)
Fixpoint re_try (k : nat -> option re_env) (lo n : nat) : option re_env :=
  match (if (lo <=? n)%nat then k n else None) with
  | Some e => Some e
  | None => match n with
            | O => None
            | S n' => re_try k lo n'
            end
  end.

(** Every character is a decimal digit. *)
Definition all_digits (l : list ascii) : bool := forallb is_digit l.

(** The digits of a decimal numeral, as [str] writes them. *)
Definition uint_chars (d : Decimal.uint) : list ascii :=
  chars (NilEmpty.string_of_uint d).

(** The list is empty or starts with a character outside the class. *)
Definition starts_not (cls : ascii -> bool) (l : list ascii) : bool :=
  match l with
  | [] => true
  | c :: _ => negb (cls c)
  end.

(** The sign [str] writes before the digits of a number. *)
Definition sign_chars (neg : bool) : list ascii :=
  if neg then ["-"%char] else [].

Abbreviation dot := "."%char (only parsing).

(** What may follow a range for it to be read as written: nothing, or text
    that starts with neither a digit nor a dot. *)
Definition range_suffix (rest : string) : bool :=
  starts_not is_digit (chars rest) && starts_not (is_chr ".") (chars rest).

(** The width the constructor derives from [min..max]. *)
Definition derived_width (min_val max_val : Z) : Z :=
  8 * ((Z.log2_up max_val + 7) / 8) * (if min_val <? 0 then 2 else 1).

(** A mandatory, single, read-write Integer item with the given range. *)
Definition range_item (range : string) : Element :=
  sample_item "9" "Level" "RW" "Single" "Mandatory" (Some "Integer")
    (Some range).

(** An Integer item that has no [RangeEnumeration] element. *)
Definition no_range_item : Element :=
  Elem "Item" [("ID", "9")] None
    [ leaf "Name" (Some "Level"); leaf "Operations" (Some "RW");
      leaf "MultipleInstances" (Some "Single");
      leaf "Mandatory" (Some "Mandatory"); leaf "Type" (Some "Integer");
      leaf "Description" (Some "text") ].

(** The sample fields in an object whose name holds a slash. *)
Definition on_off_root : Element :=
  Elem "LWM2M" [] None
    [ Elem "Object" [("ObjectType", "MODefinition")] None
        [ leaf "Name" (Some "On/Off switch");
          leaf "Description1" (Some "text"); leaf "ObjectID" (Some "9999");
          leaf "ObjectURN" (Some "urn:oma:lwm2m:x:9999");
          leaf "ObjectVersion" (Some "1.0");
          leaf "MultipleInstances" (Some "Multiple");
          leaf "Mandatory" (Some "Mandatory");
          Elem "Resources" [] None sample_items ] ].

Definition on_off_obj : LWM2MObject :=
  mkObject (Some "On/Off switch") (Some "text") 9999
    (Some "urn:oma:lwm2m:x:9999") (Some "1.0") false true
    [sample_res_a; sample_res_b; sample_res_c].

(** Every field that is not an execute field has one of the known types. *)
Definition typed (obj : LWM2MObject) : bool :=
  forallb (fun r => is_exec r || known_type (r_type r)) (o_resources obj).

(** How rendering ends: the name of the object or of a field is missing, or
    every stage finishes, or a data field has an unknown type. *)
Definition render_end (obj : LWM2MObject) : option exn :=
  if negb (named obj) then Some AttributeError
  else if typed obj then None
  else Some unhandled.

(** The body of the loop of [gen_fields], for a table of [n] fields. *)
Definition field_entry (obj : LWM2MObject) (n : Z)
    (ir : Z * LWM2MResource) : gen :=
  (f <- gen_field obj (snd ir) ;>> gyield (tab +:+ f)) >>
  (if fst ir <? n - 1 then gyield "," else gskip) >>
  gyield nl.

(** The entries of the field table as text: one per line, separated by
    commas. *)
Definition table_text (fs : list string) : string :=
  String.concat ("," +:+ nl) (map (fun f => tab +:+ f) fs)
  +:+ match fs with [] => EmptyString | _ => nl end.

(** * Properties *)

(** ** Strings and generators *)

Lemma sapp_cons (c : ascii) (a b : string) :
  String c a +:+ b = String c (a +:+ b).
Proof. reflexivity. Qed.

Lemma sapp_nil_r (s : string) : s +:+ EmptyString = s.
Proof.
  induction s as [|c s IH]; [reflexivity | now rewrite sapp_cons, IH].
Qed.

Lemma sapp_assoc (a b c : string) : (a +:+ b) +:+ c = a +:+ (b +:+ c).
Proof.
  induction a as [|x a IH]; [reflexivity | now rewrite !sapp_cons, IH].
Qed.

Lemma sconcat_cons (s : string) (l : list string) :
  String.concat EmptyString (s :: l) = s +:+ String.concat EmptyString l.
Proof.
  destruct l; [symmetry; apply sapp_nil_r | reflexivity].
Qed.

Lemma sconcat_app (l1 l2 : list string) :
  String.concat EmptyString (l1 ++ l2)
  = String.concat EmptyString l1 +:+ String.concat EmptyString l2.
Proof.
  induction l1 as [|s l1 IH]; [reflexivity |].
  change ((s :: l1) ++ l2) with (s :: (l1 ++ l2)).
  now rewrite !sconcat_cons, IH, sapp_assoc.
Qed.

Lemma gseq_ok (g1 g2 : gen) :
  snd g1 = None -> g1 >> g2 = (fst g1 ++ fst g2, snd g2).
Proof. destruct g1 as [l [e|]]; simpl; [discriminate | reflexivity]. Qed.

Lemma gseq_raise (g1 g2 : gen) (e : exn) :
  snd g1 = Some e -> g1 >> g2 = g1.
Proof. destruct g1 as [l [e'|]]; simpl; [reflexivity | discriminate]. Qed.

Lemma gseq_snd_None (g1 g2 : gen) :
  snd g1 = None -> snd g2 = None -> snd (g1 >> g2) = None.
Proof. intros H1 H2. now rewrite gseq_ok. Qed.

Lemma gfor_ok {A} (l : list A) (body : A -> gen) (f : A -> list string) :
  (forall a, In a l -> body a = (f a, None)) ->
  gfor l body = (flat_map f l, None).
Proof.
  induction l as [|a l IH]; intros H; [reflexivity |].
  simpl. rewrite (H a) by now left.
  rewrite IH by (intros; apply H; now right). reflexivity.
Qed.

Lemma gfor_snd_None {A} (l : list A) (body : A -> gen) :
  (forall a, In a l -> snd (body a) = None) -> snd (gfor l body) = None.
Proof.
  induction l as [|a l IH]; intros H; [reflexivity |].
  simpl. apply gseq_snd_None; [apply H; now left |].
  apply IH. intros; apply H; now right.
Qed.

(** A loop whose body formats one name per element and yields one
    fragment built from it. *)
Lemma gfor_mapM {A} (l : list A) (f : A -> result string)
    (g : string -> string) (ys : list string) :
  mapM f l = inr ys ->
  gfor l (fun a => n <- f a ;>> gyield (g n)) = (map g ys, None).
Proof.
  revert ys. induction l as [|a l IH]; intros ys H; simpl in H.
  - injection H as <-. reflexivity.
  - destruct (f a) as [e|n] eqn:Ha; [discriminate |]. simpl in H.
    destruct (mapM f l) as [e|ns] eqn:Hl; [discriminate |].
    injection H as <-. simpl. rewrite Ha. simpl.
    rewrite (IH ns eq_refl). reflexivity.
Qed.

Lemma mapM_ok {A B} (f : A -> result B) (l : list A) :
  (forall a, In a l -> exists b, f a = inr b) -> exists bs, mapM f l = inr bs.
Proof.
  induction l as [|a l IH]; intros H; [now exists [] |].
  destruct (H a) as [b Hb]; [now left |].
  destruct IH as [bs Hbs]; [intros; apply H; now right |].
  exists (b :: bs). simpl. now rewrite Hb, Hbs.
Qed.

Lemma mapM_Forall {A B} (f : A -> result B) (P : B -> Prop) (l : list A)
    (bs : list B) :
  (forall a b, f a = inr b -> P b) -> mapM f l = inr bs -> Forall P bs.
Proof.
  intros Hf. revert bs. induction l as [|a l IH]; intros bs H; simpl in H.
  - injection H as <-. constructor.
  - destruct (f a) as [e|b] eqn:Ha; [discriminate |]. simpl in H.
    destruct (mapM f l) as [e|bs'] eqn:Hl; [discriminate |].
    injection H as <-. constructor; [now apply (Hf a) | now apply IH].
Qed.

Lemma mapM_error {A B} (f : A -> result B) (P : exn -> Prop) (l : list A)
    (e : exn) :
  (forall a e, f a = inl e -> P e) -> mapM f l = inl e -> P e.
Proof.
  intros Hf. induction l as [|a l IH]; intros H; simpl in H; [discriminate |].
  destruct (f a) as [ea|b] eqn:Ha; [injection H as <-; now apply (Hf a) |].
  simpl in H. destruct (mapM f l) as [el|bs]; [|discriminate].
  injection H as <-. now apply IH.
Qed.

(** ** Names *)

Lemma is_some_true {A} (o : option A) :
  is_some o = true -> exists a, o = Some a.
Proof. destruct o as [a|]; [now exists a | discriminate]. Qed.

Section NamedObject.

Variable obj : LWM2MObject.
Hypothesis Hnamed : named obj = true.

Lemma named_obj_name : exists on, o_name obj = Some on.
Proof.
  unfold named in Hnamed. apply andb_prop in Hnamed as [H _].
  now apply is_some_true.
Qed.

Lemma named_res_name (r : LWM2MResource) :
  In r (o_resources obj) -> exists rn, r_name r = Some rn.
Proof.
  unfold named in Hnamed. intros Hin. apply andb_prop in Hnamed as [_ H].
  rewrite forallb_forall in H. apply is_some_true. now apply H.
Qed.

Lemma gen_res_max_name_named (r : LWM2MResource) :
  In r (o_resources obj) -> exists n, gen_res_max_name obj r = inr n.
Proof.
  intros Hin. destruct named_obj_name as [on Hon].
  destruct (named_res_name r Hin) as [rn Hrn].
  unfold gen_res_max_name, gen_res_def_name, def_format.
  rewrite Hon, Hrn. simpl. eauto.
Qed.

Lemma gen_res_id_name_named (r : LWM2MResource) :
  In r (o_resources obj) -> exists n, gen_res_id_name obj r = inr n.
Proof.
  intros Hin. destruct named_obj_name as [on Hon].
  destruct (named_res_name r Hin) as [rn Hrn].
  unfold gen_res_id_name, gen_res_def_name, def_format.
  rewrite Hon, Hrn. simpl. eauto.
Qed.

End NamedObject.

(** ** The resource instance count *)

Lemma count_step_fold (l : list LWM2MResource) (n : Z)
    (m : list LWM2MResource) :
  fold_left count_step l (n, m)
  = (n + Z.of_nat (length (List.filter is_exec l)),
     m ++ List.filter (fun r => negb (is_exec r) && negb (r_singleton r)) l).
Proof.
  revert n m. induction l as [|r l IH]; intros n m.
  - simpl. now rewrite Z.add_0_r, app_nil_r.
  - cbn [fold_left List.filter]. unfold count_step at 2.
    destruct (is_exec r); cbn [negb andb].
    + rewrite IH. f_equal. cbn [length]. lia.
    + destruct (r_singleton r); cbn [negb]; rewrite IH; [reflexivity |].
      now rewrite <- app_assoc.
Qed.

Lemma count_loop_spec (obj : LWM2MObject) :
  count_loop obj
  = (Z.of_nat (length (exec_fields obj)), multi_data_fields obj).
Proof. unfold count_loop. now rewrite count_step_fold. Qed.

Lemma show_fold_add (names : list string) (e0 : cexpr) :
  show (fold_left (fun e n => CAdd e (CSym n)) names e0)
  = show e0 +:+ String.concat EmptyString (map cont_line names).
Proof.
  revert e0. induction names as [|n names IH]; intros e0.
  - simpl. now rewrite sapp_nil_r.
  - cbn [fold_left map]. rewrite IH, sconcat_cons. cbn [show].
    unfold cont_line. now rewrite !sapp_assoc.
Qed.

Lemma eval_fold_add (env : string -> Z) (names : list string) (e0 : cexpr) :
  eval env (fold_left (fun e n => CAdd e (CSym n)) names e0)
  = eval env e0 + sum_env env names.
Proof.
  revert e0. induction names as [|n names IH]; intros e0.
  - simpl. lia.
  - cbn [fold_left]. rewrite IH. cbn [eval sum_env fold_right].
    unfold sum_env. lia.
Qed.

Lemma multi_data_fields_In (obj : LWM2MObject) (r : LWM2MResource) :
  In r (multi_data_fields obj) -> In r (o_resources obj).
Proof. unfold multi_data_fields. rewrite filter_In. tauto. Qed.

(** C1. The emitted RESOURCE_INSTANCE_COUNT definition is the text of
    [max_id - nr_exec - nr_multi] followed by one added maximum-instance
    constant per non-singleton data field, where [nr_exec] counts the
    execute fields and [nr_multi] the non-singleton data fields; with
    [max_id] defined as the field count, its value is the field count minus
    the two counts plus the sum of those constants. *)
Theorem resource_instance_count_formula (obj : LWM2MObject) :
  named obj = true ->
  let nr_exec := Z.of_nat (length (exec_fields obj)) in
  let nr_multi := Z.of_nat (length (multi_data_fields obj)) in
  exists (max_id : string) (max_names comment define : list string),
    gen_max_id obj = inr max_id /\
    mapM (gen_res_max_name obj) (multi_data_fields obj) = inr max_names /\
    gen_res_inst_count obj = (comment ++ define, None) /\
    String.concat EmptyString define
    = "#define RESOURCE_INSTANCE_COUNT ("
      +:+ show (count_expr max_id nr_exec nr_multi max_names) +:+ ")" +:+ nl /\
    forall env : string -> Z,
      env max_id = Z.of_nat (length (o_resources obj)) ->
      eval env (count_expr max_id nr_exec nr_multi max_names)
      = Z.of_nat (length (o_resources obj)) - nr_exec - nr_multi
        + sum_env env max_names.
Proof.
  intros Hn nr_exec nr_multi.
  destruct (named_obj_name _ Hn) as [on Hon].
  destruct (mapM_ok (gen_res_max_name obj) (multi_data_fields obj))
    as [max_names Hmap].
  { intros r Hr. apply (gen_res_max_name_named _ Hn).
    now apply multi_data_fields_In. }
  assert (Hmax : gen_max_id obj
                 = inr (replace " " "_" (upper on) +:+ "_MAX_ID")).
  { unfold gen_max_id, def_format. now rewrite Hon. }
  exists (replace " " "_" (upper on) +:+ "_MAX_ID"), max_names.
  exists ([ "/*" +:+ nl;
            " * Calculate resource instances as follows:" +:+ nl;
            " * start with DEVICE_MAX_ID" +:+ nl;
            " * subtract EXEC resources (" +:+ str_of_int nr_exec +:+ ")" +:+ nl;
            " * subtract MULTI resources because their counts include 0 resource ("
            +:+ str_of_int nr_multi +:+ ")" +:+ nl ]
          ++ map (fun n => " * add " +:+ n +:+ nl) max_names
          ++ [ " */" +:+ nl ]).
  exists ([ "#define RESOURCE_INSTANCE_COUNT ("
            +:+ (replace " " "_" (upper on) +:+ "_MAX_ID") +:+ " - "
            +:+ str_of_int nr_exec +:+ " - " +:+ str_of_int nr_multi ]
          ++ map cont_line max_names ++ [ ")" +:+ nl ]).
  split; [exact Hmax |]. split; [exact Hmap |]. split; [| split].
  - unfold gen_res_inst_count. rewrite count_loop_spec.
    cbv beta iota zeta. rewrite Hmax.
    rewrite (gfor_mapM _ (gen_res_max_name obj)
               (fun n => " * add " +:+ n +:+ nl) _ Hmap).
    rewrite (gfor_mapM _ (gen_res_max_name obj)
               (fun n => " " +:+ bsl +:+ nl +:+ spaces 33 +:+ "+ " +:+ n)
               _ Hmap).
    change (map (fun n => " " +:+ bsl +:+ nl +:+ spaces 33 +:+ "+ " +:+ n)
              max_names) with (map cont_line max_names).
    assert (Hnil : (0 <? Z.of_nat (length (multi_data_fields obj))) = false ->
                   max_names = []).
    { intros E. apply Z.ltb_ge in E.
      destruct (multi_data_fields obj); [| cbn [length] in E; lia].
      simpl in Hmap. now injection Hmap as <-. }
    destruct (0 <? Z.of_nat (length (multi_data_fields obj)));
      [| rewrite (Hnil eq_refl)];
      unfold gseq, gyield, gbind, gskip; cbn [fst snd map];
      fold nr_exec nr_multi; f_equal;
      rewrite <- ?app_assoc; reflexivity.
  - rewrite sconcat_app, sconcat_cons, sconcat_app. unfold count_expr.
    rewrite show_fold_add. cbn [show String.concat].
    now rewrite !sapp_assoc.
  - intros env Henv. unfold count_expr. rewrite eval_fold_add.
    cbn [eval]. rewrite Henv. lia.
Qed.

Lemma sample_parse :
  LWM2MObject_init (find sample_root "Object") = inr sample_obj.
Proof. vm_compute. reflexivity. Qed.

Lemma resource_instance_count_formula_witness :
  named sample_obj = true /\
  exists comment define : list string,
    gen_res_inst_count sample_obj = (comment ++ define, None) /\
    String.concat EmptyString define
    = "#define RESOURCE_INSTANCE_COUNT (TEST_OBJECT_MAX_ID - 1 - 1 "
      +:+ bsl +:+ nl +:+ spaces 33 +:+ "+ TEST_OBJECT_FIELD_C_MAX)" +:+ nl.
Proof.
  split; [reflexivity |].
  destruct (resource_instance_count_formula sample_obj eq_refl)
    as (max_id & max_names & comment & define & Hid & Hnames & Hgen & Htext & _).
  exists comment, define. split; [exact Hgen |].
  rewrite Htext. vm_compute in Hid, Hnames.
  injection Hid as <-. injection Hnames as <-. vm_compute. reflexivity.
Defined.

(** ** The constants stage *)

Lemma def_format_Some (s : string) : def_format (Some s) = inr (DEF s).
Proof. reflexivity. Qed.

Lemma name_format_Some (s : string) : name_format (Some s) = inr (NAME s).
Proof. reflexivity. Qed.

Lemma gen_res_id_name_eq (obj : LWM2MObject) (r : LWM2MResource)
    (on rn : string) :
  o_name obj = Some on -> r_name r = Some rn ->
  gen_res_id_name obj r = inr ((DEF on +:+ "_" +:+ DEF rn) +:+ "_ID").
Proof.
  intros Hon Hrn. unfold gen_res_id_name, gen_res_def_name.
  now rewrite Hon, Hrn.
Qed.

(** Goals of the form [snd g = None] for a generator [g] built from the
    combinators, once the names it formats are known. *)
Ltac gen_ok_step :=
  match goal with
  | |- snd (_ >> _) = None => apply gseq_snd_None
  | |- snd (gyield _) = None => reflexivity
  | |- snd gskip = None => reflexivity
  | |- snd (gbind (inr _) _) = None => cbn [gbind]
  | |- snd (gbind _ _) = None =>
      progress cbn [gbind bind ret getattr def_format name_format]
  | |- snd (if ?c then _ else _) = None => destruct c
  end.

Ltac gen_ok := repeat gen_ok_step.

Lemma gen_file_head_ok (obj : LWM2MObject) :
  named obj = true -> snd (gen_file_head obj) = None.
Proof.
  intros Hn. destruct (named_obj_name _ Hn) as [on Hon].
  unfold gen_file_head. rewrite Hon, name_format_Some. gen_ok.
Qed.

Lemma flat_map_singleton_length {A B} (f : A -> B) (l : list A) :
  length (flat_map (fun a => [f a]) l) = length l.
Proof.
  induction l as [|a l IH]; [reflexivity |].
  cbn [flat_map length app]. now rewrite IH.
Qed.

Lemma gen_res_defs_ids_ok (obj : LWM2MObject) :
  named obj = true -> snd (gen_res_defs_ids obj) = None.
Proof.
  intros Hn. apply gfor_snd_None. intros r Hr.
  destruct (gen_res_id_name_named _ Hn _ Hr) as [n ->]. reflexivity.
Qed.

Lemma gen_res_defs_ids_length (obj : LWM2MObject) :
  named obj = true ->
  length (fst (gen_res_defs_ids obj)) = length (o_resources obj).
Proof.
  intros Hn. unfold gen_res_defs_ids.
  rewrite (gfor_ok _ _ (fun res =>
     [ "#define " +:+ match gen_res_id_name obj res with
                      | inr n => n
                      | inl _ => EmptyString
                      end +:+ " " +:+ str_of_int (r_id res) +:+ nl ])).
  - cbn [fst]. apply flat_map_singleton_length.
  - intros r Hr. destruct (gen_res_id_name_named _ Hn _ Hr) as [n ->].
    reflexivity.
Qed.

Lemma gen_res_defs_maxes_ok (obj : LWM2MObject) :
  named obj = true -> snd (gen_res_defs_maxes obj) = None.
Proof.
  intros Hn. apply gfor_snd_None. intros r Hr.
  destruct (gen_res_max_name_named _ Hn _ Hr) as [n ->]. gen_ok.
Qed.

Lemma gen_res_defs_ok (obj : LWM2MObject) :
  named obj = true -> snd (gen_res_defs obj) = None.
Proof.
  intros Hn. destruct (named_obj_name _ Hn) as [on Hon].
  unfold gen_res_defs.
  repeat (apply gseq_snd_None);
    try (apply gen_res_defs_ids_ok; exact Hn);
    try (apply gen_res_defs_maxes_ok; exact Hn);
    unfold gen_obj_id_def, gen_max_id; rewrite ?Hon; gen_ok.
Qed.

(** C7. The emitted MAX_ID constant of an object is the number of its
    fields: the generator emits the line defining it with that value right
    after the resource id definitions, whatever the ids are. *)
Theorem max_id_is_field_count (obj : LWM2MObject) :
  named obj = true ->
  exists (max_id : string) (before after : list string),
    gen_max_id obj = inr max_id /\
    gen_res_defs obj
    = (before
       ++ [ "#define " +:+ max_id +:+ " "
            +:+ str_of_int (Z.of_nat (length (o_resources obj))) +:+ nl ]
       ++ after, None) /\
    length before = (3 + length (o_resources obj))%nat.
Proof.
  intros Hn. destruct (named_obj_name _ Hn) as [on Hon].
  pose proof (gen_res_defs_ids_ok obj Hn) as Hids.
  pose proof (gen_res_defs_maxes_ok obj Hn) as Hmaxes.
  pose proof (gen_res_defs_ids_length obj Hn) as Hlen.
  unfold gen_res_defs, gen_obj_id_def, gen_max_id.
  rewrite Hon, def_format_Some. cbn [bind ret gbind].
  destruct (gen_res_defs_ids obj) as [lids eids].
  destruct (gen_res_defs_maxes obj) as [lmaxes emaxes].
  cbn [fst snd] in Hids, Hmaxes, Hlen. subst eids emaxes.
  exists (DEF on +:+ "_MAX_ID").
  exists ([ "// FIXME: This should probably be defined elsewhere" +:+ nl;
            "#define " +:+ ("LWM2M_OBJECT_" +:+ DEF on +:+ "_ID") +:+ " "
            +:+ str_of_int (o_id obj) +:+ nl +:+ nl;
            "/* " +:+ on +:+ " resource IDs */" +:+ nl ] ++ lids).
  destruct (o_singleton obj);
    (eexists; split; [reflexivity |]; split;
     [ cbn [negb gseq gyield gskip fst snd str_of_opt];
       rewrite <- !app_assoc; reflexivity
     | rewrite length_app; cbn [length]; lia ]).
Qed.

Lemma max_id_is_field_count_witness :
  named sample_obj = true /\
  exists before after : list string,
    gen_res_defs sample_obj
    = (before ++ [ "#define TEST_OBJECT_MAX_ID 3" +:+ nl ] ++ after, None) /\
    map r_id (o_resources sample_obj) = [5; 17; 18].
Proof.
  split; [reflexivity |].
  destruct (max_id_is_field_count sample_obj eq_refl)
    as (max_id & before & after & Hid & Hgen & _).
  exists before, after. vm_compute in Hid. injection Hid as <-.
  split; [exact Hgen | reflexivity].
Defined.

(** ** Execute fields *)






Lemma gseq_snd_None_inv (g1 g2 : gen) :
  snd (g1 >> g2) = None -> snd g1 = None /\ snd g2 = None.
Proof. destruct g1 as [l1 [e|]]; simpl; [discriminate | auto]. Qed.

Lemma gseq_In_l (g1 g2 : gen) (s : string) :
  In s (fst g1) -> In s (fst (g1 >> g2)).
Proof.
  destruct g1 as [l1 [e|]]; simpl; [auto |]. intros H. apply in_or_app.
  now left.
Qed.

Lemma gseq_In_r (g1 g2 : gen) (s : string) :
  snd g1 = None -> In s (fst g2) -> In s (fst (g1 >> g2)).
Proof.
  intros H1 H. rewrite gseq_ok by exact H1. apply in_or_app. now right.
Qed.

Lemma gfor_In {A} (l : list A) (body : A -> gen) (a : A) (s : string) :
  snd (gfor l body) = None -> In a l -> In s (fst (body a)) ->
  In s (fst (gfor l body)).
Proof.
  induction l as [|x l IH]; intros Hok Hin Hs; [destruct Hin |].
  cbn [gfor] in *. apply gseq_snd_None_inv in Hok as [Hx Hl].
  destruct Hin as [-> | Hin].
  - now apply gseq_In_l.
  - apply gseq_In_r; [exact Hx |]. now apply IH.
Qed.






(** ** The two type dispatches *)

Lemma known_type_cases (t : option string) :
  known_type t
  = (opt_eqb t "String" || (opt_eqb t "Integer" || (opt_eqb t "Objlnk" ||
     (opt_eqb t "Float" || (opt_eqb t "Opaque" || (opt_eqb t "Time" ||
      (opt_eqb t "Boolean" || false))))))).
Proof. reflexivity. Qed.

Lemma res_inv_integer (r : LWM2MResource) :
  res_inv r = true -> opt_eqb (r_type r) "Integer" = true ->
  exists (s : bool) (b : Z), r_signed r = Some s /\ r_byte_size r = Some b.
Proof.
  unfold res_inv. intros H Hi. rewrite Hi in H.
  apply andb_prop in H as [H _]. apply andb_prop in H as [Hs Hb].
  destruct (is_some_true _ Hs) as [s ->].
  destruct (is_some_true _ Hb) as [b ->]. eauto.
Qed.

Lemma field_type_tag_known (r : LWM2MResource) :
  res_inv r = true -> known_type (r_type r) = true ->
  exists typ, field_type_tag r = inr typ.
Proof.
  intros Hinv Hk. rewrite known_type_cases in Hk. unfold field_type_tag.
  destruct (opt_eqb (r_type r) "String"); [eauto |].
  destruct (opt_eqb (r_type r) "Integer") eqn:Ei.
  { destruct (res_inv_integer r Hinv Ei) as (s & b & -> & ->).
    cbn [getattr bind ret]. eauto. }
  destruct (opt_eqb (r_type r) "Objlnk"); [eauto |].
  destruct (opt_eqb (r_type r) "Float"); [eauto |].
  destruct (opt_eqb (r_type r) "Opaque"); [eauto |].
  destruct (opt_eqb (r_type r) "Time"); [eauto |].
  destruct (opt_eqb (r_type r) "Boolean"); [eauto | discriminate Hk].
Qed.

Lemma member_type_known (r : LWM2MResource) :
  res_inv r = true -> known_type (r_type r) = true ->
  exists ts, member_type r = inr ts.
Proof.
  intros Hinv Hk. rewrite known_type_cases in Hk. unfold member_type.
  destruct (opt_eqb (r_type r) "String"); [eauto |].
  destruct (opt_eqb (r_type r) "Integer") eqn:Ei.
  { destruct (res_inv_integer r Hinv Ei) as (s & b & -> & ->).
    cbn [getattr bind ret]. eauto. }
  destruct (opt_eqb (r_type r) "Objlnk"); [eauto |].
  destruct (opt_eqb (r_type r) "Float"); [eauto |].
  destruct (opt_eqb (r_type r) "Opaque"); [eauto |].
  destruct (opt_eqb (r_type r) "Time"); [eauto |].
  destruct (opt_eqb (r_type r) "Boolean"); [eauto | discriminate Hk].
Qed.

Lemma unknown_type_cases (t : option string) :
  known_type t = false ->
  opt_eqb t "String" = false /\ opt_eqb t "Integer" = false /\
  opt_eqb t "Objlnk" = false /\ opt_eqb t "Float" = false /\
  opt_eqb t "Opaque" = false /\ opt_eqb t "Time" = false /\
  opt_eqb t "Boolean" = false.
Proof.
  rewrite known_type_cases. intros H.
  repeat (apply orb_false_elim in H as [? H]). repeat split; assumption.
Qed.

Lemma field_type_tag_unknown (r : LWM2MResource) :
  known_type (r_type r) = false -> field_type_tag r = inl unhandled.
Proof.
  intros H.
  destruct (unknown_type_cases _ H) as (H1 & H2 & H3 & H4 & H5 & H6 & H7).
  unfold field_type_tag. now rewrite H1, H2, H3, H4, H5, H6, H7.
Qed.

Lemma member_type_unknown (r : LWM2MResource) :
  known_type (r_type r) = false -> member_type r = inl unhandled.
Proof.
  intros H.
  destruct (unknown_type_cases _ H) as (H1 & H2 & H3 & H4 & H5 & H6 & H7).
  unfold member_type. now rewrite H1, H2, H3, H4, H5, H6, H7.
Qed.



(** C10. For a field that is not an execute field, the OBJ_FIELD_DATA
    descriptor carries the operations string unchanged, followed by _OPT
    exactly when the field is not mandatory. *)
Theorem data_field_access_mode (obj : LWM2MObject) (res : LWM2MResource)
    (on rn : string) :
  is_exec res = false ->
  o_name obj = Some on -> r_name res = Some rn ->
  res_inv res = true -> known_type (r_type res) = true ->
  exists typ,
    field_type_tag res = inr typ /\
    gen_field obj res
    = inr ("OBJ_FIELD_DATA(" +:+ DEF on +:+ "_" +:+ DEF rn +:+ "_ID" +:+ ", "
           +:+ r_operations res
           +:+ (if r_mandatory res then EmptyString else "_OPT")
           +:+ ", " +:+ typ +:+ ")").
Proof.
  intros He Hon Hrn Hinv Hk.
  destruct (field_type_tag_known res Hinv Hk) as [typ Htyp].
  exists typ. split; [exact Htyp |].
  unfold gen_field. rewrite He, Htyp, (gen_res_id_name_eq obj res on rn Hon Hrn).
  cbn [bind ret]. destruct (r_mandatory res);
    rewrite ?sapp_nil_r, ?sapp_assoc; reflexivity.
Qed.

Lemma data_field_access_mode_witness :
  gen_field sample_obj sample_res_c
  = inr "OBJ_FIELD_DATA(TEST_OBJECT_FIELD_C_ID, R_OPT, S32)" /\
  gen_field sample_obj sample_res_a
  = inr "OBJ_FIELD_DATA(TEST_OBJECT_FIELD_A_ID, RW, U8)".
Proof.
  split.
  - destruct (data_field_access_mode sample_obj sample_res_c
                "Test Object" "Field C" eq_refl eq_refl eq_refl eq_refl eq_refl)
      as (typ & Htyp & Hf).
    vm_compute in Htyp. injection Htyp as <-. rewrite Hf. reflexivity.
  - destruct (data_field_access_mode sample_obj sample_res_a
                "Test Object" "Field A" eq_refl eq_refl eq_refl eq_refl eq_refl)
      as (typ & Htyp & Hf).
    vm_compute in Htyp. injection Htyp as <-. rewrite Hf. reflexivity.
Defined.

(** ** The schema model *)

(** Invert one step of a successful chain of binds. *)
Ltac bind_inr H :=
  match type of H with
  | bind ?m _ = inr _ =>
      let E := fresh "E" in
      destruct m eqn:E; [discriminate H |]; cbn [bind] in H
  end.

(** Split one step of a failed chain of binds: the step failed, or a later
    one did. *)
Ltac bind_inl H :=
  match type of H with
  | bind ?m _ = inl _ =>
      let E := fresh "E" in
      destruct m eqn:E; cbn [bind] in H; [injection H as <- |]
  end.

Lemma find_text_inr (e : Element) (t : string) (x : option string) :
  find_text e t = inr x -> exists c, find e t = Some c /\ text c = x.
Proof.
  unfold find_text. destruct (find e t) as [c|]; [| discriminate].
  cbn [getattr bind ret]. intros H. injection H as <-. eauto.
Qed.

Lemma find_text_inl (e : Element) (t : string) (x : exn) :
  find_text e t = inl x -> x = AttributeError.
Proof.
  unfold find_text. destruct (find e t) as [c|]; [discriminate |].
  cbn [getattr bind]. intros H. now injection H as <-.
Qed.

Lemma getattr_inl {A} (o : option A) (x : exn) :
  getattr o = inl x -> x = AttributeError.
Proof. destruct o; [discriminate |]. intros H. now injection H as <-. Qed.

Lemma py_int_inl (s : string) (x : exn) : py_int s = inl x -> x = ValueError.
Proof.
  unfold py_int.
  destruct (strip (list_ascii_of_string s)) as [|c l].
  - cbn. intros H. now injection H as <-.
  - intros H.
    repeat match type of H with
           | context [if ?b then _ else _] => destruct b
           | context [match int_digits ?p ?a ?l with _ => _ end] =>
               destruct (int_digits p a l)
           | context [match ?c with Ascii _ _ _ _ _ _ _ _ => _ end] =>
               destruct c
           end;
      first [discriminate H | now injection H as <-].
Qed.

Lemma py_int_opt_inl (o : option string) (x : exn) :
  py_int_opt o = inl x -> SchemaError x.
Proof.
  destruct o as [s|]; cbn.
  - intros H. apply py_int_inl in H as ->. unfold SchemaError. auto.
  - intros H. injection H as <-. unfold SchemaError. auto.
Qed.

Lemma py_assert_inl (c : bool) (x : exn) :
  py_assert c = inl x -> x = AssertionError.
Proof. destruct c; [discriminate |]. intros H. now injection H as <-. Qed.

Lemma ceil_log2_div8_inl (v : Z) (x : exn) :
  ceil_log2_div8 v = inl x -> x = ValueError.
Proof.
  unfold ceil_log2_div8. destruct (v <=? 0); [| discriminate].
  intros H. now injection H as <-.
Qed.

Lemma integer_attrs_inl (res_node : Element) (x : exn) :
  integer_attrs res_node = inl x -> SchemaError x.
Proof.
  unfold integer_attrs, SchemaError, ret, raise. intros H.
  bind_inl H; [apply find_text_inl in E; auto |].
  destruct o as [range_str|]; [| discriminate H].
  bind_inl H; [apply getattr_inl in E0; auto |].
  bind_inl H; [apply py_int_inl in E1; auto |].
  bind_inl H; [apply py_int_inl in E2; auto |].
  bind_inl H; [apply ceil_log2_div8_inl in E3; auto |].
  bind_inl H; [apply py_assert_inl in E4; auto |].
  discriminate H.
Qed.

Lemma LWM2MResource_init_inl (res_node : Element) (x : exn) :
  LWM2MResource_init res_node = inl x -> SchemaError x.
Proof.
  unfold LWM2MResource_init, ret, raise. intros H.
  bind_inl H; [now apply py_int_opt_inl in E |].
  do 6 (bind_inl H;
        [match goal with
         | E : find_text _ _ = inl _ |- _ =>
             apply find_text_inl in E; unfold SchemaError; auto
         end |]).
  bind_inl H.
  { match type of E6 with
    | (if ?b then _ else _) = _ => destruct b; [| discriminate E6]
    end.
    bind_inl E6; [now apply integer_attrs_inl in E7 | discriminate E6]. }
  bind_inl H; [apply getattr_inl in E7; unfold SchemaError; auto |].
  bind_inl H; [| discriminate H].
  match type of E8 with
  | (if ?b then _ else _) = _ => destruct b; [| discriminate E8]
  end.
  match type of E8 with
  | match ?t with Some _ => _ | None => _ end = _ => destruct t
  end.
  - apply py_assert_inl in E8. unfold SchemaError. auto.
  - injection E8 as <-. unfold SchemaError. auto.
Qed.

Lemma LWM2MObject_init_inl (obj_node : option Element) (x : exn) :
  LWM2MObject_init obj_node = inl x -> SchemaError x.
Proof.
  unfold LWM2MObject_init, ret, raise. intros H.
  bind_inl H; [apply getattr_inl in E; unfold SchemaError; auto |].
  do 3 (bind_inl H;
        [match goal with
         | E : find_text _ _ = inl _ |- _ =>
             apply find_text_inl in E; unfold SchemaError; auto
         end |]).
  bind_inl H; [now apply py_int_opt_inl in E3 |].
  do 4 (bind_inl H;
        [match goal with
         | E : find_text _ _ = inl _ |- _ =>
             apply find_text_inl in E; unfold SchemaError; auto
         end |]).
  bind_inl H; [| discriminate H].
  revert E8. apply mapM_error. intros ? ?. apply LWM2MResource_init_inl.
Qed.

(** What a successful [LWM2MResource.__init__] leaves in the instance. *)
Lemma LWM2MResource_init_inr (res_node : Element) (r : LWM2MResource) :
  LWM2MResource_init res_node = inr r ->
  find_text res_node "Type" = inr (r_type r) /\
  find_text res_node "Name" = inr (r_name r) /\
  find_text res_node "Operations" = inr (Some (r_operations r)) /\
  (exists id, get res_node "ID" = Some id) /\
  (exists x, find_text res_node "MultipleInstances" = inr x) /\
  (exists x, find_text res_node "Mandatory" = inr x) /\
  (exists x, find_text res_node "Description" = inr x) /\
  (if opt_eqb (r_type r) "Integer"
   then exists a, integer_attrs res_node = inr a /\
                  r_signed r = Some (fst a) /\ r_byte_size r = Some (snd a)
   else r_signed r = None /\ r_byte_size r = None) /\
  (is_exec r = false ->
   exists t, r_type r = Some t /\ (0 <? len t) = true).
Proof.
  unfold LWM2MResource_init, ret, raise. intros H.
  bind_inr H.
  assert (Hid : exists id, get res_node "ID" = Some id).
  { destruct (get res_node "ID") as [id|]; [eauto | discriminate E]. }
  do 6 bind_inr H. bind_inr H. bind_inr H. bind_inr H.
  injection H as <-. cbn [r_type r_name r_operations r_signed r_byte_size].
  match goal with
  | E : getattr ?o = inr _ |- _ =>
      destruct o as [ops|]; [injection E as <- | discriminate E]
  end.
  do 7 (split; [first [reflexivity | assumption | solve [eauto]] |]).
  split.
  - match goal with
    | E : (if opt_eqb ?t "Integer" then _ else _) = inr _ |- _ =>
        destruct (opt_eqb t "Integer");
          [bind_inr E |]; injection E as <-; cbn [fst snd]; eauto
    end.
  - intros Hex.
    match goal with
    | E : (if negb ?b then _ else _) = inr _ |- _ =>
        change b with false in E || rewrite Hex in E; cbn [negb] in E;
        match type of E with
        | match ?t with Some _ => _ | None => _ end = _ =>
            destruct t as [t0|]; [| discriminate E]
        end;
        exists t0; split; [reflexivity |];
        destruct (0 <? len t0); [reflexivity | discriminate E]
    end.
Qed.

Lemma LWM2MResource_init_inv (res_node : Element) (r : LWM2MResource) :
  LWM2MResource_init res_node = inr r -> res_inv r = true.
Proof.
  intros H. apply LWM2MResource_init_inr in H
    as (_ & _ & _ & _ & _ & _ & _ & Hattrs & Htype).
  unfold res_inv. apply andb_true_intro. split.
  - destruct (opt_eqb (r_type r) "Integer").
    + destruct Hattrs as (a & _ & -> & ->). reflexivity.
    + destruct Hattrs as [-> ->]. reflexivity.
  - destruct (is_exec r); [reflexivity |].
    destruct (Htype eq_refl) as (t & -> & Hlen). cbn [orb].
    destruct t; [discriminate Hlen | reflexivity].
Qed.

Lemma mapM_inr_In {A B} (f : A -> result B) (l : list A) (bs : list B)
    (a : A) :
  mapM f l = inr bs -> In a l -> exists b, f a = inr b /\ In b bs.
Proof.
  revert bs. induction l as [|x l IH]; intros bs H Hin; [destruct Hin |].
  cbn [mapM] in H. unfold ret in H. bind_inr H. bind_inr H.
  injection H as <-. destruct Hin as [-> | Hin].
  - eexists. split; [eassumption | now left].
  - destruct (IH _ eq_refl Hin) as (b' & Hb & Hin'). exists b'.
    split; [exact Hb | now right].
Qed.

Lemma LWM2MObject_init_resources (obj_node : option Element)
    (obj : LWM2MObject) :
  LWM2MObject_init obj_node = inr obj ->
  exists o, obj_node = Some o /\
    mapM LWM2MResource_init (findall2 o "Resources" "Item")
    = inr (o_resources obj) /\
    lacks o obj_required = false.
Proof.
  unfold LWM2MObject_init, ret, raise. intros H.
  destruct obj_node as [o|]; [| discriminate H].
  cbn [getattr bind ret] in H.
  exists o. split; [reflexivity |].
  do 3 bind_inr H. bind_inr H. do 4 bind_inr H. bind_inr H.
  injection H as <-. cbn [o_resources]. split; [reflexivity |].
  repeat match goal with
         | E : find_text _ _ = inr _ |- _ =>
             apply find_text_inr in E as (? & ? & _)
         end.
  unfold lacks, obj_required. cbn [existsb].
  repeat match goal with
         | E : find _ _ = Some _ |- _ => rewrite E; clear E
         end.
  reflexivity.
Qed.

Lemma LWM2MObject_init_inv (obj_node : option Element) (obj : LWM2MObject) :
  LWM2MObject_init obj_node = inr obj ->
  forallb res_inv (o_resources obj) = true.
Proof.
  intros H. apply LWM2MObject_init_resources in H as (o & _ & H & _).
  apply forallb_forall. apply List.Forall_forall.
  revert H. apply mapM_Forall. intros a b. apply LWM2MResource_init_inv.
Qed.

(** A document that builds a model has every required element. *)
Lemma LWM2MObject_init_complete (root : Element) (obj : LWM2MObject) :
  LWM2MObject_init (find root "Object") = inr obj ->
  missing_required root = false.
Proof.
  intros H. apply LWM2MObject_init_resources in H as (o & Ho & Hres & Hlacks).
  unfold missing_required. rewrite Ho, Hlacks. cbn [orb].
  apply not_true_is_false. intros Hex. apply existsb_exists in Hex
    as (item & Hin & Hitem).
  destruct (mapM_inr_In _ _ _ _ Hres Hin) as (r & Hr & _).
  apply LWM2MResource_init_inr in Hr
    as (Ht & Hn & Ho' & (id & Hid) & (x1 & Hm) & (x2 & Hma) & (x3 & Hd) & _).
  rewrite Hid in Hitem. cbn [is_some negb orb] in Hitem.
  repeat match goal with
         | E : find_text _ _ = inr _ |- _ =>
             apply find_text_inr in E as (? & ? & _)
         end.
  unfold lacks, res_required in Hitem. cbn [existsb] in Hitem.
  repeat match goal with
         | E : find _ _ = Some _ |- _ => rewrite E in Hitem; clear E
         end.
  discriminate Hitem.
Qed.

(** ** Integer fields *)

(** [ceil_log2_div8 v] is the least [k] with [v <= 2^(8k)]. *)
Lemma ceil_log2_div8_spec (v : Z) :
  0 < v ->
  exists k, ceil_log2_div8 v = inr k /\ 0 <= k /\ v <= 2 ^ (8 * k) /\
            (0 < k -> 2 ^ (8 * (k - 1)) < v).
Proof.
  intros Hv. unfold ceil_log2_div8.
  destruct (v <=? 0) eqn:E; [apply Z.leb_le in E; lia |].
  exists ((Z.log2_up v + 7) / 8). split; [reflexivity |].
  pose proof (Z.log2_up_nonneg v) as Hl.
  pose proof (Z.div_mod (Z.log2_up v + 7) 8 ltac:(lia)) as Hdm.
  pose proof (Z.mod_pos_bound (Z.log2_up v + 7) 8 ltac:(lia)) as Hm.
  assert (Hk : 0 <= (Z.log2_up v + 7) / 8) by (apply Z.div_pos; lia).
  split; [exact Hk |]. split.
  - destruct (Z.eq_dec v 1) as [-> | Hne].
    + assert (0 < 2 ^ (8 * ((Z.log2_up 1 + 7) / 8)))
        by (apply Z.pow_pos_nonneg; lia).
      lia.
    + destruct (Z.log2_up_spec v ltac:(lia)) as [_ Hup].
      eapply Z.le_trans; [exact Hup |].
      apply Z.pow_le_mono_r; lia.
  - intros Hpos. destruct (Z.eq_dec v 1) as [-> | Hne].
    + change (Z.log2_up 1) with 0 in *. change ((0 + 7) / 8) with 0 in Hpos.
      lia.
    + destruct (Z.log2_up_spec v ltac:(lia)) as [Hlow _].
      eapply Z.le_lt_trans; [| exact Hlow].
      apply Z.pow_le_mono_r; lia.
Qed.

(** C4, amended. For an item whose [RangeEnumeration] element is there and
    holds no text, the Integer branch of the constructor gives the defaults:
    signed and 32 bits wide. For an item without the element the branch
    ends in an [AttributeError]. So an Integer field built from an item
    that declares no range has the element, is signed and is 32 bits
    wide. *)
Theorem integer_default_attrs (res_node : Element) :
  declared_range res_node = None ->
  (forall range,
     find res_node "RangeEnumeration" = Some range ->
     integer_attrs res_node = inr (true, 32)) /\
  (find res_node "RangeEnumeration" = None ->
   integer_attrs res_node = inl AttributeError) /\
  (forall r,
     LWM2MResource_init res_node = inr r ->
     r_type r = Some "Integer" ->
     is_some (find res_node "RangeEnumeration") = true /\
     r_signed r = Some true /\ r_byte_size r = Some 32).
Proof.
  intros Hrange. unfold declared_range in Hrange.
  unfold integer_attrs, find_text.
  split; [| split].
  - intros range Hfind. rewrite Hfind in *. cbn [getattr bind ret].
    now rewrite Hrange.
  - intros Hfind. now rewrite Hfind.
  - intros r Hinit Htype.
    apply LWM2MResource_init_inr in Hinit
      as (_ & _ & _ & _ & _ & _ & _ & Hattrs & _).
    rewrite Htype in Hattrs. cbn [opt_eqb String.eqb] in Hattrs.
    change (("Integer" =? "Integer")%string) with true in Hattrs.
    destruct Hattrs as (a & Ha & -> & ->).
    unfold integer_attrs, find_text in Ha.
    destruct (find res_node "RangeEnumeration") as [c|]; [| discriminate Ha].
    cbn [getattr bind ret] in Ha. rewrite Hrange in Ha.
    injection Ha as <-. repeat split; reflexivity.
Qed.

Lemma integer_default_attrs_witness :
  (exists r,
     LWM2MResource_init
       (sample_item "18" "Field C" "R" "Multiple" "Optional" (Some "Integer")
          None) = inr r /\
     r_signed r = Some true /\ r_byte_size r = Some 32) /\
  integer_attrs no_range_item = inl AttributeError.
Proof.
  split.
  - exists sample_res_c. split; [reflexivity |].
    apply (integer_default_attrs
             (sample_item "18" "Field C" "R" "Multiple" "Optional"
                (Some "Integer") None));
      reflexivity.
  - apply (integer_default_attrs no_range_item); reflexivity.
Defined.

(** C4 as stated fails for an Integer item that declares no range by having
    no [RangeEnumeration] element: no field is built, with or without
    defaults; the constructor raises an [AttributeError] and the run ends
    with it before the output file is opened. *)
Lemma integer_without_range_element_rejected :
  find_text no_range_item "Type" = inr (Some "Integer") /\
  declared_range no_range_item = None /\
  LWM2MResource_init no_range_item = inl AttributeError /\
  main sample_argv (sample_world (sample_doc [no_range_item]))
  = (sample_world (sample_doc [no_range_item]), inl AttributeError).
Proof. repeat split; vm_compute; reflexivity. Qed.

(** C2. For the declared range 0..100000 the derived width is 24, which is
    none of 8, 16, 32 and 64, and the generated member has the type
    uint24_t; for 0..256 the derived width is 8, which does not hold 256. *)
Theorem integer_width_not_a_storage_width :
  exists r r',
    LWM2MResource_init wide_item = inr r /\
    r_signed r = Some false /\ r_byte_size r = Some 24 /\
    member_type r = inr ("uint24_t", EmptyString) /\
    field_type_tag r = inr "U24" /\
    LWM2MResource_init
      (sample_item "8" "Level" "RW" "Single" "Mandatory" (Some "Integer")
         (Some "0..256")) = inr r' /\
    r_signed r' = Some false /\ r_byte_size r' = Some 8 /\ 2 ^ 8 <= 256.
Proof.
  eexists. eexists. split; [vm_compute; reflexivity |].
  split; [reflexivity |]. split; [reflexivity |].
  split; [reflexivity |]. split; [reflexivity |].
  split; [vm_compute; reflexivity |].
  split; [reflexivity |]. split; [reflexivity |]. cbn. lia.
Qed.

(** ** Types outside the enumeration *)

Lemma gen_res_inst_count_ok (obj : LWM2MObject) :
  named obj = true -> snd (gen_res_inst_count obj) = None.
Proof.
  intros Hn. destruct (named_obj_name _ Hn) as [on Hon].
  unfold gen_res_inst_count. rewrite count_loop_spec. cbv beta iota zeta.
  assert (Hloop : forall g : string -> string,
            snd (gfor (multi_data_fields obj) (fun res =>
                   n <- gen_res_max_name obj res ;>> gyield (g n))) = None).
  { intros g. apply gfor_snd_None. intros r Hr.
    apply multi_data_fields_In in Hr.
    destruct (gen_res_max_name_named _ Hn _ Hr) as [n ->]. reflexivity. }
  unfold gen_max_id. rewrite Hon.
  repeat (apply gseq_snd_None);
    try (apply (Hloop (fun n => " * add " +:+ n +:+ nl)));
    gen_ok.
  apply (Hloop (fun n => " " +:+ bsl +:+ nl +:+ spaces 33 +:+ "+ " +:+ n)).
Qed.

Lemma gseq_snd_Some_l (g1 g2 : gen) (e : exn) :
  snd g1 = Some e -> snd (g1 >> g2) = Some e.
Proof. intros H. now rewrite (gseq_raise _ _ _ H). Qed.

Lemma gseq_snd_Some_r (g1 g2 : gen) (e : exn) :
  snd g1 = None -> snd g2 = Some e -> snd (g1 >> g2) = Some e.
Proof. intros H1 H2. now rewrite gseq_ok. Qed.

(** A loop whose bodies either finish or raise [e], one of them raising,
    raises [e]. *)
Lemma gfor_raise {A} (l : list A) (body : A -> gen) (e : exn) :
  (forall a, In a l -> snd (body a) = None \/ snd (body a) = Some e) ->
  (exists a, In a l /\ snd (body a) = Some e) ->
  snd (gfor l body) = Some e.
Proof.
  induction l as [|x l IH]; intros Hall (a & Hin & Ha); [destruct Hin |].
  cbn [gfor]. destruct (Hall x (or_introl eq_refl)) as [Hx | Hx].
  - apply gseq_snd_Some_r; [exact Hx |]. apply IH.
    + intros b Hb. apply Hall. now right.
    + destruct Hin as [-> | Hin]; [congruence |]. eauto.
  - now apply gseq_snd_Some_l.
Qed.

Lemma forallb_In {A} (p : A -> bool) (l : list A) (a : A) :
  forallb p l = true -> In a l -> p a = true.
Proof. intros H Hin. rewrite forallb_forall in H. now apply H. Qed.

Lemma gen_data_struct_unhandled (obj : LWM2MObject) (r : LWM2MResource) :
  named obj = true -> forallb res_inv (o_resources obj) = true ->
  In r (o_resources obj) -> is_exec r = false ->
  known_type (r_type r) = false ->
  snd (gen_data_struct obj) = Some unhandled.
Proof.
  intros Hn Hinv Hin Hex Hk. destruct (named_obj_name _ Hn) as [on Hon].
  unfold gen_data_struct, gen_data_struct_type, gen_data_struct_var_name.
  rewrite Hon. apply gseq_snd_Some_r; [gen_ok |].
  apply gseq_snd_Some_l. apply gfor_raise.
  - intros a Ha. destruct (is_exec a); [now left |].
    destruct (known_type (r_type a)) eqn:Eka.
    + left. destruct (member_type_known a (forallb_In _ _ _ Hinv Ha) Eka)
        as [ts ->].
      destruct (named_res_name _ Hn _ Ha) as [rn ->]. reflexivity.
    + right. now rewrite (member_type_unknown a Eka).
  - exists r. split; [exact Hin |].
    now rewrite Hex, (member_type_unknown r Hk).
Qed.

Lemma render_unhandled (obj : LWM2MObject) (r : LWM2MResource) :
  named obj = true -> forallb res_inv (o_resources obj) = true ->
  In r (o_resources obj) -> is_exec r = false ->
  known_type (r_type r) = false ->
  snd (render obj) = Some unhandled /\
  fst (render obj)
  = fst (gen_file_head obj) ++ fst (gen_res_defs obj)
    ++ fst (gen_res_inst_count obj) ++ fst (gen_data_struct obj).
Proof.
  intros Hn Hinv Hin Hex Hk. unfold render.
  pose proof (gen_file_head_ok obj Hn) as H1.
  pose proof (gen_res_defs_ok obj Hn) as H2.
  pose proof (gen_res_inst_count_ok obj Hn) as H3.
  pose proof (gen_data_struct_unhandled obj r Hn Hinv Hin Hex Hk) as H4.
  rewrite (gseq_raise (gen_data_struct obj) _ _ H4).
  rewrite (gseq_ok _ _ H1), (gseq_ok _ _ H2), (gseq_ok _ _ H3).
  cbn [fst snd]. split; [exact H4 | reflexivity].
Qed.





(** C3, amended. When the document builds a model whose object and fields
    are named and one field that is not an execute field has a type outside
    the enumeration, and the output file can be opened, the run ends in the
    unhandled-resource-type exception; by then the output file has been
    created and holds what the first three stages and the data structure
    stage yielded before the exception. When the output file cannot be
    opened, the run ends with the error of [open] and leaves the files as
    they were. *)
Theorem unsupported_type_aborts (argv : list string) (w : World)
    (root : Element) (obj : LWM2MObject) (r : LWM2MResource) :
  (2 <= length argv)%nat ->
  files w !! nth 1 argv EmptyString = Some (XmlDoc root) ->
  LWM2MObject_init (find root "Object") = inr obj ->
  named obj = true ->
  In r (o_resources obj) -> is_exec r = false ->
  known_type (r_type r) = false ->
  exists on,
    o_name obj = Some on /\
    (open_w ("lwm2m_obj_" +:+ NAME on +:+ "_stub.c") = inr tt ->
     main argv w
     = (mkWorld
          (<[ "lwm2m_obj_" +:+ NAME on +:+ "_stub.c" :=
              Text (String.concat EmptyString
                      (fst (gen_file_head obj) ++ fst (gen_res_defs obj)
                       ++ fst (gen_res_inst_count obj)
                       ++ fst (gen_data_struct obj))) ]> (files w))
          (stdout w),
        inl unhandled)) /\
    (forall e,
       open_w ("lwm2m_obj_" +:+ NAME on +:+ "_stub.c") = inl e ->
       main argv w = (w, inl e)).
Proof.
  intros Hlen Hfile Hinit Hn Hin Hex Hk.
  destruct (named_obj_name _ Hn) as [on Hon]. exists on.
  split; [exact Hon |].
  pose proof (LWM2MObject_init_inv _ _ Hinit) as Hinv.
  destruct (render_unhandled obj r Hn Hinv Hin Hex Hk) as [Hs Hf].
  unfold main, ET_parse.
  destruct (length argv <? 2)%nat eqn:E; [apply Nat.ltb_lt in E; lia |].
  rewrite Hfile. cbn [ret]. rewrite Hinit, Hon, name_format_Some.
  unfold with_open_w. split.
  - intros Hopen. now rewrite Hopen, Hs, Hf.
  - intros e Hopen. now rewrite Hopen.
Qed.

Lemma unsupported_type_aborts_witness :
  exists data,
    main sample_argv (sample_world corge_root)
    = (mkWorld (<[ stub_path := Text data ]> (files (sample_world corge_root)))
         [], inl unhandled).
Proof.
  destruct (unsupported_type_aborts sample_argv (sample_world corge_root)
              corge_root corge_obj corge_res)
    as (on & Hon & Hmain & _).
  - apply le_n.
  - vm_compute. reflexivity.
  - vm_compute. reflexivity.
  - reflexivity.
  - right. left. reflexivity.
  - reflexivity.
  - reflexivity.
  - injection Hon as <-. eexists. apply Hmain. reflexivity.
Defined.

(** C3 as stated fails twice: with a data field of the type Corge the run
    raises but leaves a freshly created, non-empty output file; with an
    execute field of the type Corge the run raises nothing at all. *)
Lemma unsupported_type_leaves_partial_file :
  snd (main sample_argv (sample_world corge_root)) = inl unhandled /\
  files (sample_world corge_root) !! stub_path = None /\
  (exists data,
     files (fst (main sample_argv (sample_world corge_root))) !! stub_path
     = Some (Text data) /\ data <> EmptyString) /\
  snd (main sample_argv (sample_world corge_exec_root)) = inr tt.
Proof.
  split; [vm_compute; reflexivity |]. split; [vm_compute; reflexivity |].
  split; [| vm_compute; reflexivity].
  eexists. split; [vm_compute; reflexivity | discriminate].
Qed.

(** ** The driver *)

(** C8. When the document lacks a required element, building the model
    fails with one of the exceptions of a malformed document, and the run
    ends with it before the output file is opened: files and printed lines
    are as they were. *)
Theorem missing_element_aborts (argv : list string) (w : World)
    (root : Element) :
  (2 <= length argv)%nat ->
  files w !! nth 1 argv EmptyString = Some (XmlDoc root) ->
  missing_required root = true ->
  exists e,
    SchemaError e /\
    LWM2MObject_init (find root "Object") = inl e /\
    main argv w = (w, inl e).
Proof.
  intros Hlen Hfile Hmiss.
  destruct (LWM2MObject_init (find root "Object")) as [e|obj] eqn:E.
  - exists e. split; [now apply (LWM2MObject_init_inl _ _ E) |].
    split; [reflexivity |]. unfold main, ET_parse.
    destruct (length argv <? 2)%nat eqn:El; [apply Nat.ltb_lt in El; lia |].
    rewrite Hfile. cbn [ret]. now rewrite E.
  - apply LWM2MObject_init_complete in E. congruence.
Qed.

Lemma missing_element_aborts_witness :
  main sample_argv (sample_world no_mandatory_root)
  = (sample_world no_mandatory_root, inl AttributeError).
Proof.
  destruct (missing_element_aborts sample_argv
              (sample_world no_mandatory_root) no_mandatory_root)
    as (e & _ & He & Hmain).
  - apply le_n.
  - vm_compute. reflexivity.
  - vm_compute. reflexivity.
  - vm_compute in He. injection He as <-. exact Hmain.
Defined.

Lemma main_cases (argv : list string) (w : World) :
  ((length argv <? 2)%nat = true /\
   main argv w = (mkWorld (files w) (stdout w ++ usage), inr tt)) \/
  (exists e, main argv w = (w, inl e)) \/
  (exists root obj n,
     (length argv <? 2)%nat = false /\
     files w !! nth 1 argv EmptyString = Some (XmlDoc root) /\
     LWM2MObject_init (find root "Object") = inr obj /\
     name_format (o_name obj) = inr n /\
     open_w ("lwm2m_obj_" +:+ n +:+ "_stub.c") = inr tt /\
     main argv w
     = (mkWorld
          (<[ "lwm2m_obj_" +:+ n +:+ "_stub.c" :=
              Text (String.concat EmptyString (fst (render obj))) ]>
             (files w))
          (stdout w),
        match snd (render obj) with
        | None => ret tt
        | Some e => raise e
        end)).
Proof.
  unfold main, ET_parse.
  destruct (length argv <? 2)%nat; [left; auto |]. right.
  destruct (files w !! nth 1 argv EmptyString) as [[root | data] |];
    cbn [raise ret]; [| left; eauto | left; eauto].
  destruct (LWM2MObject_init (find root "Object")) as [e|obj] eqn:Eo;
    [left; eauto |].
  destruct (name_format (o_name obj)) as [e|n] eqn:En; [left; eauto |].
  unfold with_open_w.
  destruct (open_w ("lwm2m_obj_" +:+ n +:+ "_stub.c")) as [e|[]] eqn:Eopen;
    [left; eauto |].
  right. exists root, obj, n. repeat (split; [assumption || reflexivity |]).
  reflexivity.
Qed.

(** C6. Generation is deterministic. Running the generator again right
    after a run leaves every file as the first run left it; and two runs
    that read the same document end the same way and write the same files
    with the same contents, whatever else the two file stores hold. *)
Theorem generation_is_deterministic (argv : list string) :
  (forall w : World,
     files (fst (main argv (fst (main argv w)))) = files (fst (main argv w))) /\
  (forall w1 w2 : World,
     ET_parse (files w1) (nth 1 argv EmptyString)
     = ET_parse (files w2) (nth 1 argv EmptyString) ->
     snd (main argv w1) = snd (main argv w2) /\
     exists written : gmap string content,
       files (fst (main argv w1)) = written ∪ files w1 /\
       files (fst (main argv w2)) = written ∪ files w2).
Proof.
  split.
  - intros w.
    destruct (main_cases argv w)
      as [(Hl & H) | [(e & H)
                      | (root & obj & n & Hl & Hf & Ho & Hn & Hopen & H)]].
    + rewrite H. cbn [fst]. unfold main. now rewrite Hl.
    + rewrite H. cbn [fst]. now rewrite H.
    + rewrite H. cbn [fst files].
      set (out := "lwm2m_obj_" +:+ n +:+ "_stub.c") in *.
      set (w' := mkWorld _ _).
      unfold main, ET_parse. rewrite Hl. cbn [files w'].
      destruct (decide (out = nth 1 argv EmptyString)) as [Heq | Hne].
      * rewrite <- Heq, lookup_insert_eq. reflexivity.
      * rewrite lookup_insert_ne by exact Hne. rewrite Hf. cbn [ret].
        rewrite Ho, Hn. unfold with_open_w. fold out. rewrite Hopen.
        cbn [fst files w']. apply insert_insert_eq.
  - intros w1 w2 Hparse. unfold main.
    destruct (length argv <? 2)%nat.
    + cbn [fst snd files]. split; [reflexivity |]. exists ∅.
      now rewrite !(left_id_L ∅ (∪)).
    + rewrite <- Hparse.
      destruct (ET_parse (files w1) (nth 1 argv EmptyString)) as [e|root].
      { cbn [fst snd]. split; [reflexivity |]. exists ∅.
        now rewrite !(left_id_L ∅ (∪)). }
      destruct (LWM2MObject_init (find root "Object")) as [e|obj].
      { cbn [fst snd]. split; [reflexivity |]. exists ∅.
        now rewrite !(left_id_L ∅ (∪)). }
      destruct (name_format (o_name obj)) as [e|n].
      { cbn [fst snd]. split; [reflexivity |]. exists ∅.
        now rewrite !(left_id_L ∅ (∪)). }
      unfold with_open_w.
      destruct (open_w ("lwm2m_obj_" +:+ n +:+ "_stub.c")) as [e|[]].
      { cbn [fst snd]. split; [reflexivity |]. exists ∅.
        now rewrite !(left_id_L ∅ (∪)). }
      cbn [fst snd files]. split; [reflexivity |].
      eexists. split; apply insert_union_singleton_l.
Qed.

Lemma generation_is_deterministic_witness :
  let w1 := sample_world sample_root in
  let w2 := mkWorld (<[ stub_path := Text "stale" ]> (files w1)) ["log"] in
  snd (main sample_argv w1) = snd (main sample_argv w2) /\
  files (fst (main sample_argv w1)) !! stub_path
  = files (fst (main sample_argv w2)) !! stub_path.
Proof.
  intros w1 w2.
  destruct (generation_is_deterministic sample_argv) as [_ H].
  destruct (H w1 w2) as (Hs & written & H1 & H2).
  - vm_compute. reflexivity.
  - split; [exact Hs |].
    assert (Hw : written !! stub_path
                 = files (fst (main sample_argv w1)) !! stub_path).
    { rewrite H1. vm_compute (files w1).
      rewrite lookup_union_l; [reflexivity |]. vm_compute. reflexivity. }
    rewrite H2, <- Hw.
    assert (Hsome : is_Some (written !! stub_path)).
    { rewrite Hw. vm_compute. eauto. }
    destruct Hsome as [c Hc]. rewrite Hc. symmetry.
    now apply lookup_union_Some_l.
Defined.

(** * Further properties *)

(** ** The two name formats *)

Lemma chars_map_string (f : ascii -> ascii) (s : string) :
  chars (map_string f s) = map f (chars s).
Proof.
  induction s as [|c s IH]; [reflexivity |]. cbn [map_string chars
    list_ascii_of_string map]. f_equal. exact IH.
Qed.

Lemma map_string_length (f : ascii -> ascii) (s : string) :
  String.length (map_string f s) = String.length s.
Proof. induction s as [|c s IH]; [reflexivity |]. cbn. now rewrite IH. Qed.

Lemma map_string_compose (f g : ascii -> ascii) (s : string) :
  map_string f (map_string g s) = map_string (fun c => f (g c)) s.
Proof.
  induction s as [|c s IH]; [reflexivity |]. cbn [map_string]. now rewrite IH.
Qed.

Lemma map_string_ext (f g : ascii -> ascii) (s : string) :
  (forall c, f c = g c) -> map_string f s = map_string g s.
Proof.
  intros H. induction s as [|c s IH]; [reflexivity |]. cbn [map_string].
  now rewrite H, IH.
Qed.

Lemma DEF_map (s : string) : DEF s = map_string def_char s.
Proof. unfold DEF, replace, upper. now rewrite map_string_compose. Qed.

Lemma NAME_map (s : string) : NAME s = map_string name_char s.
Proof. unfold NAME, replace, lower. now rewrite map_string_compose. Qed.

Ltac all_ascii c := destruct c as [[] [] [] [] [] [] [] []]; vm_compute.

Lemma def_char_spec (c : ascii) :
  def_char c <> " "%char /\ upper_ascii (def_char c) = def_char c.
Proof. all_ascii c; split; (discriminate || reflexivity). Qed.

Lemma name_char_spec (c : ascii) :
  name_char c <> " "%char /\ lower_ascii (name_char c) = name_char c.
Proof. all_ascii c; split; (discriminate || reflexivity). Qed.

Lemma def_name_char (c : ascii) :
  def_char (name_char c) = def_char c /\ name_char (def_char c) = name_char c.
Proof. all_ascii c; split; reflexivity. Qed.

Lemma def_name_char_ascii (c : ascii) :
  (nat_of_ascii c <? 128)%nat = true ->
  (nat_of_ascii (def_char c) <? 128)%nat = true /\
  (nat_of_ascii (name_char c) <? 128)%nat = true.
Proof. all_ascii c; intros H; try discriminate H; split; reflexivity. Qed.

Lemma isascii_map (f : ascii -> ascii) (s : string) :
  (forall c, (nat_of_ascii c <? 128)%nat = true ->
             (nat_of_ascii (f c) <? 128)%nat = true) ->
  isascii s = true -> isascii (map_string f s) = true.
Proof.
  intros Hf. unfold isascii. rewrite chars_map_string, !forallb_forall.
  intros H c Hc. apply in_map_iff in Hc as (c0 & <- & Hc0).
  apply Hf. now apply H.
Qed.

(** X1. On an ASCII name the two name formats keep the length of the name,
    stay within ASCII and leave no space; the macro format leaves no
    lower-case letter, the identifier format no upper-case letter. *)
Theorem format_shape (s : string) :
  isascii s = true ->
  (exists d, def_format (Some s) = inr d /\
     String.length d = String.length s /\ isascii d = true /\
     forall c, In c (chars d) -> c <> " "%char /\ upper_ascii c = c) /\
  (exists n, name_format (Some s) = inr n /\
     String.length n = String.length s /\ isascii n = true /\
     forall c, In c (chars n) -> c <> " "%char /\ lower_ascii c = c).
Proof.
  intros Hs. split.
  - exists (DEF s). split; [reflexivity |]. rewrite DEF_map.
    split; [apply map_string_length |]. split.
    + apply isascii_map; [| exact Hs]. intros c. apply def_name_char_ascii.
    + intros c Hc. rewrite chars_map_string in Hc. apply in_map_iff in Hc
        as (c0 & <- & _). apply def_char_spec.
  - exists (NAME s). split; [reflexivity |]. rewrite NAME_map.
    split; [apply map_string_length |]. split.
    + apply isascii_map; [| exact Hs]. intros c. apply def_name_char_ascii.
    + intros c Hc. rewrite chars_map_string in Hc. apply in_map_iff in Hc
        as (c0 & <- & _). apply name_char_spec.
Qed.

Lemma format_shape_witness :
  def_format (Some "Test Object") = inr "TEST_OBJECT" /\
  name_format (Some "Test Object") = inr "test_object".
Proof.
  destruct (format_shape "Test Object" eq_refl)
    as [(d & Hd & _) (n & Hn & _)].
  split; reflexivity.
Defined.

Lemma DEF_NAME (s : string) : DEF (NAME s) = DEF s.
Proof.
  rewrite !DEF_map, NAME_map, map_string_compose. apply map_string_ext.
  intros c. apply def_name_char.
Qed.

Lemma NAME_DEF (s : string) : NAME (DEF s) = NAME s.
Proof.
  rewrite !NAME_map, DEF_map, map_string_compose. apply map_string_ext.
  intros c. apply def_name_char.
Qed.

(** X2. Two ASCII names have the same macro format exactly when they have
    the same identifier format, and either format absorbs the other. *)
Theorem format_collisions (s1 s2 : string) :
  isascii s1 = true -> isascii s2 = true ->
  (def_format (Some s1) = def_format (Some s2)
   <-> name_format (Some s1) = name_format (Some s2)) /\
  def_format (Some (NAME s1)) = def_format (Some s1) /\
  name_format (Some (DEF s1)) = name_format (Some s1).
Proof.
  intros _ _.
  rewrite !def_format_Some, !name_format_Some. split; [split |].
  - intros H. injection H as H. f_equal.
    now rewrite <- (NAME_DEF s1), <- (NAME_DEF s2), H.
  - intros H. injection H as H. f_equal.
    now rewrite <- (DEF_NAME s1), <- (DEF_NAME s2), H.
  - now rewrite DEF_NAME, NAME_DEF.
Qed.

Lemma format_collisions_witness :
  def_format (Some "Field A") = def_format (Some "field_a") /\
  name_format (Some "Field A") <> name_format (Some "Field B").
Proof.
  split.
  - apply (format_collisions "Field A" "field_a"); reflexivity.
  - intros H.
    apply (format_collisions "Field A" "Field B") in H;
      [discriminate H | reflexivity | reflexivity].
Defined.

(** ** The pattern matcher on a quantified item *)

Lemma re_match_chr (cls : ascii -> bool) (q : quant) (p : list re_item)
    (l : list ascii) (pos : nat) (env : re_env) :
  re_match (RChr cls q :: p) l pos env
  = re_try (fun n => re_match p (drop n l) (pos + n)%nat env)
      (q_min q) (q_max q (span_len cls l)).
Proof.
  cbn [re_match]. generalize (q_max q (span_len cls l)). intros n.
  induction n as [|n IH]; cbn [re_try]; [reflexivity |].
  destruct (q_min q <=? S n)%nat.
  - destruct (re_match p (drop (S n) l) (pos + S n) env); [reflexivity |].
    exact IH.
  - exact IH.
Qed.

Lemma re_try_greedy (k : nat -> option re_env) (lo n : nat) (e : re_env) :
  (lo <= n)%nat -> k n = Some e -> re_try k lo n = Some e.
Proof.
  intros Hlo Hk. apply Nat.leb_le in Hlo.
  destruct n; cbn [re_try]; now rewrite Hlo, Hk.
Qed.

Lemma re_try_back (k : nat -> option re_env) (lo n : nat) :
  k (S n) = None -> re_try k lo (S n) = re_try k lo n.
Proof.
  intros Hk. cbn [re_try]. rewrite Hk. now destruct (lo <=? S n)%nat.
Qed.

Lemma re_try_below (k : nat -> option re_env) (lo n : nat) :
  (n < lo)%nat -> re_try k lo n = None.
Proof.
  induction n as [|n IH]; intros H; cbn [re_try].
  - destruct (Nat.leb_spec lo 0) as [H' | _]; [lia | reflexivity].
  - destruct (Nat.leb_spec lo (S n)) as [H' | _]; [lia |]. apply IH. lia.
Qed.

Lemma re_try_inv (k : nat -> option re_env) (lo n : nat) (e : re_env) :
  re_try k lo n = Some e -> exists m, (lo <= m <= n)%nat /\ k m = Some e.
Proof.
  induction n as [|n IH]; cbn [re_try]; intros H.
  - destruct (Nat.leb_spec lo 0) as [Hlo | _]; [| discriminate H].
    destruct (k 0%nat) eqn:E; [| discriminate H]. injection H as <-.
    exists 0%nat. split; [lia | exact E].
  - destruct (Nat.leb_spec lo (S n)) as [Hlo | _].
    + destruct (k (S n)) eqn:E.
      * injection H as <-. exists (S n). split; [lia | exact E].
      * destruct (IH H) as (m & Hm & Hk). exists m. split; [lia | exact Hk].
    + destruct (IH H) as (m & Hm & Hk). exists m. split; [lia | exact Hk].
Qed.

Lemma span_len_le (cls : ascii -> bool) (l : list ascii) :
  (span_len cls l <= length l)%nat.
Proof.
  induction l as [|c l IH]; cbn [span_len length]; [lia |].
  destruct (cls c); lia.
Qed.

Lemma span_len_pos (cls : ascii -> bool) (l : list ascii) :
  (1 <= span_len cls l)%nat -> exists c r, l = c :: r /\ cls c = true.
Proof.
  destruct l as [|c r]; cbn [span_len]; [lia |].
  destruct (cls c) eqn:E; [eauto | lia].
Qed.

Lemma q_max_le (q : quant) (n : nat) : (q_max q n <= n)%nat.
Proof. destruct q; cbn [q_max]; lia. Qed.

Lemma In_drop {A} (x : A) (n : nat) (l : list A) : In x (drop n l) -> In x l.
Proof.
  revert l. induction n as [|n IH]; intros l H; [exact H |].
  destruct l as [|y l]; [destruct H |]. right. now apply IH.
Qed.

(** A match needs, for every item that must take a character, a character
    of its class in the subject. *)
Lemma re_match_needs (p : list re_item) (l : list ascii) (pos : nat)
    (env e : re_env) (cls : ascii -> bool) (q : quant) :
  re_match p l pos env = Some e ->
  In (RChr cls q) p -> q_min q = 1%nat ->
  exists c, In c l /\ cls c = true.
Proof.
  revert l pos env. induction p as [|it p IH]; intros l pos env Hm Hin Hq;
    [destruct Hin |].
  destruct it as [cls' q' | g | g].
  - rewrite re_match_chr in Hm. apply re_try_inv in Hm as (m & Hmn & Hk).
    destruct Hin as [Heq | Hin].
    + injection Heq as -> ->. rewrite Hq in Hmn.
      pose proof (q_max_le q (span_len cls l)) as Hle.
      destruct (span_len_pos cls l ltac:(lia)) as (c & r & -> & Hc).
      exists c. split; [now left | exact Hc].
    + destruct (IH _ _ _ Hk Hin Hq) as (c & Hc & Hcls).
      exists c. split; [now apply (In_drop _ m) | exact Hcls].
  - destruct Hin as [Heq | Hin]; [discriminate Heq |].
    cbn [re_match] in Hm. eauto.
  - destruct Hin as [Heq | Hin]; [discriminate Heq |].
    cbn [re_match] in Hm. eauto.
Qed.

Lemma range_regex_needs_dot (s : string) :
  py_re_match range_regex s <> None -> In "."%char (chars s).
Proof.
  unfold py_re_match. intros H.
  destruct (re_match range_regex (list_ascii_of_string s) 0 []) as [e|] eqn:E;
    [| now destruct H].
  destruct (re_match_needs _ _ _ _ _ (is_chr ".") QOne E) as (c & Hc & Hcls).
  - cbn. auto 10.
  - reflexivity.
  - unfold is_chr in Hcls. apply Ascii.eqb_eq in Hcls. now subst c.
Qed.

(** ** Reading back a number that [str] wrote *)

Lemma digit_props (c : ascii) :
  is_digit c = true ->
  is_space c = false /\ is_chr "-" c = false /\ is_chr "." c = false /\
  c <> "-"%char /\ c <> "+"%char /\ c <> "_"%char.
Proof.
  all_ascii c; intros H; try discriminate H; repeat split; discriminate.
Qed.

Lemma uint_chars_digits (d : Decimal.uint) : all_digits (uint_chars d) = true.
Proof. induction d; cbn; [reflexivity | assumption ..]. Qed.

Lemma uint_chars_nonnil (d : Decimal.uint) :
  d <> Decimal.Nil -> uint_chars d <> [].
Proof. destruct d; intros H; [now destruct H | discriminate ..]. Qed.

Ltac digit_step IH :=
  cbn [uint_chars chars list_ascii_of_string NilEmpty.string_of_uint
       int_digits Pos.of_uint_acc Pos.of_uint];
  match goal with
  | |- context [is_digit ?c] => change (is_digit c) with true
  end;
  cbv iota.

Lemma int_digits_acc (d : Decimal.uint) (p : positive) :
  int_digits true (Z.pos p) (uint_chars d)
  = Some (Z.pos (Pos.of_uint_acc d p)).
Proof.
  revert p. induction d as [|d IH|d IH|d IH|d IH|d IH|d IH|d IH|d IH|d IH|d IH];
    intros p; [reflexivity | ..];
    digit_step IH; fold (chars (NilEmpty.string_of_uint d));
    fold (uint_chars d); rewrite <- IH; f_equal; vm_compute digit_val; lia.
Qed.

Lemma int_digits_uint (d : Decimal.uint) (b : bool) :
  b = true \/ d <> Decimal.Nil ->
  int_digits b 0 (uint_chars d) = Some (Z.of_N (Pos.of_uint d)).
Proof.
  revert b. induction d as [|d IH|d IH|d IH|d IH|d IH|d IH|d IH|d IH|d IH|d IH];
    intros b Hb.
  - destruct Hb as [-> | H]; [reflexivity | now destruct H].
  - digit_step IH. fold (chars (NilEmpty.string_of_uint d)).
    fold (uint_chars d). change (10 * 0 + digit_val "0") with 0.
    apply IH. now left.
  - digit_step IH. apply (int_digits_acc d 1).
  - digit_step IH. apply (int_digits_acc d 2).
  - digit_step IH. apply (int_digits_acc d 3).
  - digit_step IH. apply (int_digits_acc d 4).
  - digit_step IH. apply (int_digits_acc d 5).
  - digit_step IH. apply (int_digits_acc d 6).
  - digit_step IH. apply (int_digits_acc d 7).
  - digit_step IH. apply (int_digits_acc d 8).
  - digit_step IH. apply (int_digits_acc d 9).
Qed.

Lemma lstrip_nonspace (c : ascii) (l : list ascii) :
  is_space c = false -> lstrip (c :: l) = c :: l.
Proof. intros H. cbn [lstrip]. now rewrite H. Qed.

Lemma strip_id (l : list ascii) (c d : ascii) (l1 l2 : list ascii) :
  l = c :: l1 -> l = l2 ++ [d] -> is_space c = false -> is_space d = false ->
  strip l = l.
Proof.
  intros H1 H2 Hc Hd. unfold strip. rewrite H1 at 1.
  rewrite (lstrip_nonspace c l1 Hc), <- H1, H2, rev_app_distr.
  cbn [rev app]. rewrite (lstrip_nonspace d _ Hd).
  change (d :: rev l2) with (rev [d] ++ rev l2).
  now rewrite <- rev_app_distr, rev_involutive.
Qed.

Lemma all_digits_app (l1 l2 : list ascii) :
  all_digits (l1 ++ l2) = all_digits l1 && all_digits l2.
Proof. apply forallb_app. Qed.

Lemma last_exists {A} (l : list A) :
  l <> [] -> exists l' d, l = l' ++ [d].
Proof.
  intros H. destruct (exists_last H) as (l' & d & ->). eauto.
Qed.

Lemma all_digits_In (l : list ascii) (c : ascii) :
  all_digits l = true -> In c l -> is_digit c = true.
Proof. unfold all_digits. rewrite forallb_forall. auto. Qed.

(** A sign and digits have no whitespace to strip. *)
Lemma strip_number (sign ds : list ascii) :
  ds <> [] -> all_digits ds = true ->
  (sign = [] \/ sign = ["-"%char]) ->
  strip (sign ++ ds) = sign ++ ds.
Proof.
  intros Hne Hd Hs. destruct (last_exists ds Hne) as (ds' & d & Hlast).
  assert (Hdd : is_digit d = true).
  { apply (all_digits_In ds); [exact Hd |]. rewrite Hlast.
    apply in_or_app. right. now left. }
  destruct ds as [|c ds0]; [now destruct Hne |].
  assert (Hcd : is_digit c = true)
    by (apply (all_digits_In (c :: ds0)); [exact Hd | now left]).
  destruct Hs as [-> | ->].
  - apply (strip_id _ c d ds0 ds'); [reflexivity | exact Hlast | |];
      now apply digit_props.
  - apply (strip_id _ "-"%char d (c :: ds0) ("-"%char :: ds'));
      [reflexivity | cbn [app]; now rewrite Hlast | reflexivity |].
    now apply digit_props.
Qed.

Lemma chars_app (s1 s2 : string) : chars (s1 +:+ s2) = chars s1 ++ chars s2.
Proof.
  induction s1 as [|c s1 IH]; [reflexivity |].
  rewrite sapp_cons. cbn [chars list_ascii_of_string app]. f_equal. exact IH.
Qed.

(** The characters of the decimal form of an integer: a sign and digits. *)
Lemma str_of_int_chars (z : Z) :
  exists ds, ds <> [] /\ all_digits ds = true /\
    chars (str_of_int z) = (if z <? 0 then ["-"%char] else []) ++ ds /\
    int_digits false 0 ds = Some (Z.abs z).
Proof.
  unfold str_of_int. destruct z as [|p|p]; cbn [Z.to_int Z.ltb Z.compare].
  - exists ["0"%char]. repeat split; [discriminate | reflexivity ..].
  - exists (uint_chars (Pos.to_uint p)).
    pose proof (DecimalPos.Unsigned.to_uint_nonnil p) as Hnn.
    split; [now apply uint_chars_nonnil |].
    split; [apply uint_chars_digits |]. split.
    + cbn [NilZero.string_of_int]. unfold NilZero.string_of_uint.
      destruct (Pos.to_uint p); [now destruct Hnn | reflexivity ..].
    + rewrite int_digits_uint by now right.
      now rewrite DecimalPos.Unsigned.of_to.
  - exists (uint_chars (Pos.to_uint p)).
    pose proof (DecimalPos.Unsigned.to_uint_nonnil p) as Hnn.
    split; [now apply uint_chars_nonnil |].
    split; [apply uint_chars_digits |]. split.
    + cbn [NilZero.string_of_int]. unfold NilZero.string_of_uint.
      destruct (Pos.to_uint p); [now destruct Hnn | reflexivity ..].
    + rewrite int_digits_uint by now right.
      now rewrite DecimalPos.Unsigned.of_to.
Qed.

Lemma py_int_number (neg : bool) (ds : list ascii) (v : Z) (s : string) :
  chars s = (if neg then ["-"%char] else []) ++ ds ->
  ds <> [] -> all_digits ds = true -> int_digits false 0 ds = Some v ->
  py_int s = inr (if neg then - v else v).
Proof.
  intros Hs Hne Hd Hv. unfold py_int. fold (chars s). rewrite Hs.
  rewrite strip_number; [| exact Hne | exact Hd | destruct neg; auto].
  destruct neg; cbn [app].
  - rewrite Hv. cbn [ret]. f_equal; lia.
  - destruct ds as [|c ds0]; [now destruct Hne |].
    assert (Hc : is_digit c = true)
      by (apply (all_digits_In (c :: ds0)); [exact Hd | now left]).
    clear Hs Hne Hd.
    destruct c as [[] [] [] [] [] [] [] []]; try discriminate Hc;
      cbv beta iota zeta; rewrite Hv; cbn [ret]; f_equal; lia.
Qed.

(** [int(str(z)) == z] *)
Lemma py_int_str_of_int (z : Z) : py_int (str_of_int z) = inr z.
Proof.
  destruct (str_of_int_chars z) as (ds & Hne & Hd & Hc & Hv).
  rewrite (py_int_number (z <? 0) ds (Z.abs z) _ Hc Hne Hd Hv).
  f_equal. destruct (Z.ltb_spec z 0); lia.
Qed.

(** ** What [range_regex] matches *)

Lemma re_match_open (g : string) (p : list re_item) (l : list ascii)
    (pos : nat) (env : re_env) :
  re_match (ROpen g :: p) l pos env
  = re_match p l pos ((g +:+ "<", pos) :: env).
Proof. reflexivity. Qed.

Lemma re_match_close (g : string) (p : list re_item) (l : list ascii)
    (pos : nat) (env : re_env) :
  re_match (RClose g :: p) l pos env
  = re_match p l pos ((g +:+ ">", pos) :: env).
Proof. reflexivity. Qed.

Lemma re_try_zero (k : nat -> option re_env) : re_try k 0 0 = k 0%nat.
Proof. cbn [re_try Nat.leb]. now destruct (k 0%nat). Qed.

Ltac re_step :=
  cbn beta; cbn [q_max q_min Nat.min];
  rewrite ?skipn_cons, ?drop_0, ?re_match_close, ?re_match_open.

Lemma span_len_0 (cls : ascii -> bool) (l : list ascii) :
  starts_not cls l = true -> span_len cls l = 0%nat.
Proof.
  destruct l as [|c l]; [reflexivity |]. cbn [starts_not span_len].
  now destruct (cls c).
Qed.

Lemma span_len_app (cls : ascii -> bool) (ds rest : list ascii) :
  forallb cls ds = true -> starts_not cls rest = true ->
  span_len cls (ds ++ rest) = length ds.
Proof.
  intros Hd Hr. induction ds as [|c ds IH]; [now apply span_len_0 |].
  cbn [forallb] in Hd. apply andb_prop in Hd as [Hc Hd].
  cbn [app span_len length]. now rewrite Hc, IH.
Qed.

Lemma span_len_cons (cls : ascii -> bool) (c : ascii) (l : list ascii) :
  cls c = true -> span_len cls (c :: l) = S (span_len cls l).
Proof. intros H. cbn [span_len]. now rewrite H. Qed.

Lemma digits_start (ds rest : list ascii) (cls : ascii -> bool) :
  ds <> [] -> all_digits ds = true ->
  (forall c, is_digit c = true -> cls c = false) ->
  starts_not cls (ds ++ rest) = true.
Proof.
  intros Hne Hd Hcls. destruct ds as [|c ds]; [now destruct Hne |].
  cbn [app starts_not]. rewrite Hcls; [reflexivity |].
  apply (all_digits_In (c :: ds)); [exact Hd | now left].
Qed.

Lemma digit_not_minus (c : ascii) : is_digit c = true -> is_chr "-" c = false.
Proof. intros H. now apply digit_props. Qed.

Lemma digit_not_dot (c : ascii) : is_digit c = true -> is_chr dot c = false.
Proof. intros H. now apply digit_props. Qed.

Lemma number_starts_not_dot (neg : bool) (ds rest : list ascii) :
  ds <> [] -> all_digits ds = true ->
  starts_not (is_chr dot) (sign_chars neg ++ ds ++ rest) = true.
Proof.
  intros Hne Hd. destruct neg; [reflexivity |]. cbn [sign_chars app].
  apply digits_start; [assumption | assumption | apply digit_not_dot].
Qed.

(** The sign and the digits of a number, taken greedily. *)
Lemma match_sign_digits (p : list re_item) (neg : bool)
    (ds rest : list ascii) (pos : nat) (env e : re_env) :
  ds <> [] -> all_digits ds = true -> starts_not is_digit rest = true ->
  re_match p rest (pos + length (sign_chars neg ++ ds))%nat env = Some e ->
  re_match (RChr (is_chr "-") QOpt :: RChr is_digit QPlus :: p)
    (sign_chars neg ++ ds ++ rest) pos env = Some e.
Proof.
  intros Hne Hd Hr Hp.
  assert (Hlen : (1 <= length ds)%nat)
    by (destruct ds; [now destruct Hne | cbn; lia]).
  assert (Hdigits : forall pos',
            (pos' + length ds = pos + length (sign_chars neg ++ ds))%nat ->
            re_match (RChr is_digit QPlus :: p) (ds ++ rest) pos' env = Some e).
  { intros pos' Hpos. rewrite re_match_chr, (span_len_app _ _ _ Hd Hr).
    apply re_try_greedy; [exact Hlen |]. cbn [q_max].
    now rewrite drop_app_length, Hpos. }
  rewrite re_match_chr. destruct neg; cbn [sign_chars app].
  - rewrite span_len_cons by reflexivity.
    rewrite (span_len_0 _ (ds ++ rest))
      by (apply digits_start;
          [assumption | assumption | apply digit_not_minus]).
    apply re_try_greedy; [cbn; lia |]. re_step.
    apply Hdigits. cbn [sign_chars app length]. lia.
  - rewrite (span_len_0 _ (ds ++ rest))
      by (apply digits_start;
          [assumption | assumption | apply digit_not_minus]).
    apply re_try_greedy; [cbn; lia |]. re_step.
    apply Hdigits. cbn [sign_chars app length]. lia.
Qed.

(** A whole number followed by neither a digit nor a dot. *)
Lemma match_number (p : list re_item) (neg : bool) (ds rest : list ascii)
    (pos : nat) (env e : re_env) :
  ds <> [] -> all_digits ds = true ->
  starts_not is_digit rest = true -> starts_not (is_chr dot) rest = true ->
  re_match p rest (pos + length (sign_chars neg ++ ds))%nat env = Some e ->
  re_match (re_number ++ p) (sign_chars neg ++ ds ++ rest) pos env = Some e.
Proof.
  intros Hne Hd Hr Hdot Hp. cbn [re_number app].
  apply match_sign_digits; [assumption .. |].
  rewrite re_match_chr, (span_len_0 _ _ Hdot).
  apply re_try_greedy; [cbn; lia |]. re_step.
  rewrite re_match_chr, (span_len_0 _ _ Hr).
  apply re_try_greedy; [cbn; lia |]. re_step.
  now rewrite !Nat.add_0_r.
Qed.

(** A whole number followed by exactly two dots: the optional dot of the
    number first takes one of them, which leaves one dot too few, and is
    then given back. *)
Lemma match_min_int (p : list re_item) (neg : bool) (ds tail : list ascii)
    (pos : nat) (env e : re_env) :
  ds <> [] -> all_digits ds = true ->
  starts_not (is_chr dot) tail = true ->
  let P := (pos + length (sign_chars neg ++ ds))%nat in
  re_match p tail (P + 2)%nat (("min" +:+ ">", P) :: env) = Some e ->
  re_match (re_number
            ++ RClose "min" :: RChr (is_chr dot) QOne
               :: RChr (is_chr dot) QPlus :: p)
    (sign_chars neg ++ ds ++ dot :: dot :: tail) pos env = Some e.
Proof.
  intros Hne Hd Ht P Hp. cbn [re_number app].
  apply match_sign_digits; [assumption .. | reflexivity |]. fold P.
  rewrite re_match_chr. rewrite !span_len_cons by reflexivity.
  rewrite (span_len_0 _ _ Ht). cbn [q_max q_min Nat.min].
  rewrite re_try_back.
  - apply re_try_greedy; [lia |]. re_step.
    rewrite re_match_chr, span_len_0 by reflexivity.
    apply re_try_greedy; [cbn; lia |]. re_step.
    rewrite re_match_chr, !span_len_cons by reflexivity.
    rewrite (span_len_0 _ _ Ht).
    apply re_try_greedy; [cbn; lia |]. re_step.
    rewrite re_match_chr, span_len_cons by reflexivity.
    rewrite (span_len_0 _ _ Ht).
    apply re_try_greedy; [cbn; lia |]. re_step.
    rewrite <- Hp. f_equal; [lia | f_equal; f_equal; lia].
  - re_step. rewrite re_match_chr, span_len_0 by reflexivity.
    cbn [q_max q_min]. rewrite re_try_zero. re_step.
    rewrite re_match_chr, span_len_cons by reflexivity.
    rewrite (span_len_0 _ _ Ht). cbn [q_max q_min Nat.min].
    rewrite re_try_back; [apply re_try_below; lia |].
    re_step. rewrite re_match_chr, (span_len_0 _ _ Ht).
    cbn [q_max q_min]. apply re_try_below. lia.
Qed.

(** A number with a dot and a fraction, before the two dots: every item
    takes all it can. *)
Lemma match_min_frac (p : list re_item) (neg : bool)
    (ds df tail : list ascii) (pos : nat) (env e : re_env) :
  ds <> [] -> all_digits ds = true -> all_digits df = true ->
  starts_not (is_chr dot) tail = true ->
  let P := (pos + length (sign_chars neg ++ ds ++ dot :: df))%nat in
  re_match p tail (P + 2)%nat (("min" +:+ ">", P) :: env) = Some e ->
  re_match (re_number
            ++ RClose "min" :: RChr (is_chr dot) QOne
               :: RChr (is_chr dot) QPlus :: p)
    (sign_chars neg ++ ds ++ dot :: df ++ dot :: dot :: tail) pos env
  = Some e.
Proof.
  intros Hne Hd Hf Ht P Hp. cbn [re_number app].
  apply match_sign_digits; [assumption .. | reflexivity |].
  rewrite re_match_chr, span_len_cons by reflexivity.
  apply re_try_greedy; [cbn; lia |]. cbn [q_max Nat.min]. re_step.
  rewrite re_match_chr, (span_len_app _ df) by (exact Hf || reflexivity).
  apply re_try_greedy; [cbn; lia |]. re_step. rewrite drop_app_length.
  re_step. rewrite re_match_chr, !span_len_cons by reflexivity.
  rewrite (span_len_0 _ _ Ht).
  apply re_try_greedy; [cbn; lia |]. re_step.
  rewrite re_match_chr, span_len_cons by reflexivity.
  rewrite (span_len_0 _ _ Ht).
  apply re_try_greedy; [cbn; lia |]. re_step.
  assert (HP : P = (pos + length (sign_chars neg ++ ds) + 1 + length df)%nat).
  { unfold P. rewrite !length_app. cbn [length]. lia. }
  rewrite <- Hp, HP. f_equal. lia.
Qed.

Lemma match_max (neg : bool) (ds rest : list ascii) (pos : nat)
    (env : re_env) :
  ds <> [] -> all_digits ds = true ->
  starts_not is_digit rest = true -> starts_not (is_chr dot) rest = true ->
  re_match (ROpen "max" :: re_number ++ [RClose "max"])
    (sign_chars neg ++ ds ++ rest) pos env
  = Some (("max" +:+ ">", (pos + length (sign_chars neg ++ ds))%nat)
          :: ("max" +:+ "<", pos) :: env).
Proof.
  intros Hne Hd Hr Hdot. rewrite re_match_open.
  now apply match_number.
Qed.

Lemma substring_chars (l1 l2 l3 : list ascii) (s : string) :
  chars s = l1 ++ l2 ++ l3 ->
  String.substring (length l1) (length l2) s = string_of_list_ascii l2.
Proof.
  revert s. induction l1 as [|c l1 IH]; intros s Hs.
  - cbn [app length] in *. revert s Hs.
    induction l2 as [|c l2 IH2]; intros s Hs.
    + now destruct s.
    + destruct s as [|c' s]; [discriminate Hs |].
      cbn [chars list_ascii_of_string app] in Hs. injection Hs as -> Hs.
      cbn [length String.substring string_of_list_ascii]. f_equal.
      now apply IH2.
  - destruct s as [|c' s]; [discriminate Hs |].
    cbn [chars list_ascii_of_string app] in Hs. injection Hs as -> Hs.
    cbn [length String.substring]. now apply IH.
Qed.

Lemma chars_of_list (l : list ascii) : chars (string_of_list_ascii l) = l.
Proof. apply list_ascii_of_string_of_list_ascii. Qed.

(** The two groups of a match, read from the offsets. *)
Lemma groups_of_env (s : string) (a1 b1 a2 b2 : nat) :
  let m := MatchObj s [("max" +:+ ">", b2); ("max" +:+ "<", a2);
                       ("min" +:+ ">", b1); ("min" +:+ "<", a1)] in
  group m "min" = String.substring a1 (b1 - a1) s /\
  group m "max" = String.substring a2 (b2 - a2) s.
Proof. split; reflexivity. Qed.

(** The match object of a range whose minimum is the text [lmin] (a whole
    number, or one with a fraction) and whose maximum is a whole number. *)
Lemma range_groups (s : string) (lmin : list ascii) (neg2 : bool)
    (ds2 rest : list ascii) :
  chars s = lmin ++ [dot; dot] ++ (sign_chars neg2 ++ ds2) ++ rest ->
  re_match range_regex (chars s) 0 []
  = Some [("max" +:+ ">",
           (length lmin + 2 + length (sign_chars neg2 ++ ds2))%nat);
          ("max" +:+ "<", (length lmin + 2)%nat);
          ("min" +:+ ">", length lmin); ("min" +:+ "<", 0%nat)] ->
  exists m, py_re_match range_regex s = Some m /\
    group m "min" = string_of_list_ascii lmin /\
    group m "max" = string_of_list_ascii (sign_chars neg2 ++ ds2).
Proof.
  intros Hs Hm. unfold py_re_match. fold (chars s). rewrite Hm.
  eexists. split; [reflexivity |].
  destruct (groups_of_env s 0 (length lmin) (length lmin + 2)
              (length lmin + 2 + length (sign_chars neg2 ++ ds2)))
    as [-> ->].
  split.
  - rewrite Nat.sub_0_r. apply (substring_chars [] lmin
      ([dot; dot] ++ (sign_chars neg2 ++ ds2) ++ rest)). exact Hs.
  - replace (length lmin + 2 + length (sign_chars neg2 ++ ds2)
             - (length lmin + 2))%nat
      with (length (sign_chars neg2 ++ ds2)) by lia.
    replace (length lmin + 2)%nat with (length (lmin ++ [dot; dot]))
      by (rewrite length_app; reflexivity).
    apply (substring_chars _ _ rest). rewrite Hs.
    now rewrite <- !app_assoc.
Qed.

Lemma range_match_int (neg1 neg2 : bool) (ds1 ds2 rest : list ascii) :
  ds1 <> [] -> all_digits ds1 = true ->
  ds2 <> [] -> all_digits ds2 = true ->
  starts_not is_digit rest = true -> starts_not (is_chr dot) rest = true ->
  let lmin := sign_chars neg1 ++ ds1 in
  re_match range_regex
    (lmin ++ [dot; dot] ++ (sign_chars neg2 ++ ds2) ++ rest) 0 []
  = Some [("max" +:+ ">",
           (length lmin + 2 + length (sign_chars neg2 ++ ds2))%nat);
          ("max" +:+ "<", (length lmin + 2)%nat);
          ("min" +:+ ">", length lmin); ("min" +:+ "<", 0%nat)].
Proof.
  intros Hne1 Hd1 Hne2 Hd2 Hr Hdot lmin. unfold range_regex, lmin.
  cbn [app]. rewrite re_match_open, <- !app_assoc. cbn [app].
  change (re_number ++ RClose "min" :: RChr (is_chr dot) QOne
          :: RChr (is_chr dot) QPlus :: ROpen "max"
          :: re_number ++ [RClose "max"])
    with (re_number ++ RClose "min" :: RChr (is_chr dot) QOne
          :: RChr (is_chr dot) QPlus
          :: (ROpen "max" :: re_number ++ [RClose "max"])).
  apply match_min_int; [assumption | assumption | |].
  - now apply number_starts_not_dot.
  - cbn [Nat.add]. now rewrite match_max.
Qed.

Lemma range_match_frac (neg1 neg2 : bool) (ds1 df ds2 rest : list ascii) :
  ds1 <> [] -> all_digits ds1 = true -> all_digits df = true ->
  ds2 <> [] -> all_digits ds2 = true ->
  starts_not is_digit rest = true -> starts_not (is_chr dot) rest = true ->
  let lmin := sign_chars neg1 ++ ds1 ++ dot :: df in
  re_match range_regex
    (lmin ++ [dot; dot] ++ (sign_chars neg2 ++ ds2) ++ rest) 0 []
  = Some [("max" +:+ ">",
           (length lmin + 2 + length (sign_chars neg2 ++ ds2))%nat);
          ("max" +:+ "<", (length lmin + 2)%nat);
          ("min" +:+ ">", length lmin); ("min" +:+ "<", 0%nat)].
Proof.
  intros Hne1 Hd1 Hdf Hne2 Hd2 Hr Hdot lmin. unfold range_regex, lmin.
  cbn [app]. rewrite re_match_open, <- !app_assoc. cbn [app].
  rewrite <- ?app_assoc. cbn [app].
  change (re_number ++ RClose "min" :: RChr (is_chr dot) QOne
          :: RChr (is_chr dot) QPlus :: ROpen "max"
          :: re_number ++ [RClose "max"])
    with (re_number ++ RClose "min" :: RChr (is_chr dot) QOne
          :: RChr (is_chr dot) QPlus
          :: (ROpen "max" :: re_number ++ [RClose "max"])).
  apply match_min_frac; [assumption | assumption | assumption | |].
  - now apply number_starts_not_dot.
  - cbn [Nat.add]. rewrite match_max by assumption.
    rewrite !app_assoc. reflexivity.
Qed.

(** ** The Integer branch of the constructor on a range *)

Lemma string_of_chars (s : string) : string_of_list_ascii (chars s) = s.
Proof. apply string_of_list_ascii_of_string. Qed.

Lemma declared_range_find_text (res_node : Element) (s : string) :
  declared_range res_node = Some s ->
  find_text res_node "RangeEnumeration" = inr (Some s).
Proof.
  unfold declared_range, find_text.
  destruct (find res_node "RangeEnumeration") as [e|]; [| discriminate].
  intros H. cbn [getattr bind ret]. now rewrite H.
Qed.

Lemma sign_chars_ltb (z : Z) :
  (if z <? 0 then ["-"%char] else []) = sign_chars (z <? 0).
Proof. reflexivity. Qed.

(** The text [a..b], possibly followed by something that starts with
    neither a digit nor a dot, matches with the groups [a] and [b]. *)
Lemma range_text_match (a b : Z) (rest : string) :
  starts_not is_digit (chars rest) = true ->
  starts_not (is_chr ".") (chars rest) = true ->
  exists m,
    py_re_match range_regex (str_of_int a +:+ ".." +:+ str_of_int b +:+ rest)
    = Some m /\
    group m "min" = str_of_int a /\ group m "max" = str_of_int b.
Proof.
  intros Hr Hdot.
  destruct (str_of_int_chars a) as (da & Hna & Hda & Hca & _).
  destruct (str_of_int_chars b) as (db & Hnb & Hdb & Hcb & _).
  rewrite sign_chars_ltb in Hca, Hcb.
  set (s := str_of_int a +:+ ".." +:+ str_of_int b +:+ rest).
  assert (Hs : chars s
               = (sign_chars (a <? 0) ++ da) ++ ["."%char; "."%char]
                 ++ (sign_chars (b <? 0) ++ db) ++ chars rest).
  { unfold s. now rewrite !chars_app, Hca, Hcb. }
  destruct (range_groups s _ _ _ _ Hs) as (m & Hm & Hmin & Hmax).
  { rewrite Hs. now apply range_match_int. }
  exists m. split; [exact Hm |].
  now rewrite Hmin, Hmax, <- Hca, <- Hcb, !string_of_chars.
Qed.

(** What the Integer branch of the constructor computes from the range
    text [a..b]. *)
Lemma integer_attrs_range (res_node : Element) (a b : Z) (rest : string) :
  declared_range res_node
  = Some (str_of_int a +:+ ".." +:+ str_of_int b +:+ rest) ->
  starts_not is_digit (chars rest) = true ->
  starts_not (is_chr ".") (chars rest) = true ->
  integer_attrs res_node
  = (k <~ ceil_log2_div8 b ;;
     _ <~ py_assert ((if a <? 0 then k * 8 * 2 else k * 8) <=? 64) ;;
     ret (a <? 0, if a <? 0 then k * 8 * 2 else k * 8)).
Proof.
  intros Hrange Hr Hdot. unfold integer_attrs.
  rewrite (declared_range_find_text _ _ Hrange). cbn [bind].
  destruct (range_text_match a b rest Hr Hdot) as (m & Hm & Hmin & Hmax).
  rewrite Hm. cbn [getattr bind ret].
  rewrite Hmin, Hmax, !py_int_str_of_int. reflexivity.
Qed.

Lemma int_digits_stop (ds r : list ascii) (c : ascii) (b : bool) (acc : Z) :
  all_digits ds = true -> is_digit c = false -> c <> "_"%char ->
  int_digits b acc (ds ++ c :: r) = None.
Proof.
  intros Hd Hc Hu. revert b acc.
  induction ds as [|x ds IH]; intros b acc.
  - cbn [app int_digits]. rewrite Hc.
    now rewrite (proj2 (Ascii.eqb_neq c "_") Hu).
  - cbn [all_digits forallb] in Hd. apply andb_prop in Hd as [Hx Hd].
    cbn [app int_digits]. rewrite Hx. now apply IH.
Qed.

(** [int] of a number with a dot is a [ValueError]. *)
Lemma py_int_fraction (neg : bool) (ds df : list ascii) (s : string) :
  chars s = sign_chars neg ++ ds ++ "."%char :: df ->
  ds <> [] -> all_digits ds = true -> all_digits df = true ->
  py_int s = inl ValueError.
Proof.
  intros Hs Hne Hd Hf. unfold py_int. fold (chars s). rewrite Hs.
  assert (Hstop : forall b acc,
            int_digits b acc (ds ++ "."%char :: df) = None)
    by (intros; now apply int_digits_stop).
  destruct ds as [|c ds0]; [now destruct Hne |].
  assert (Hc : is_digit c = true)
    by (apply (all_digits_In (c :: ds0)); [exact Hd | now left]).
  assert (Hlast : exists l' d, (c :: ds0) ++ "."%char :: df = l' ++ [d]
                               /\ is_space d = false).
  { destruct (list_eq_nil_dec df) as [-> | Hdf].
    - exists (c :: ds0), "."%char. split; reflexivity.
    - destruct (last_exists df Hdf) as (df' & d & ->).
      exists ((c :: ds0) ++ "."%char :: df'), d. split.
      + now rewrite <- app_assoc.
      + apply digit_props. apply (all_digits_In _ d Hf).
        apply in_or_app. right. now left. }
  destruct Hlast as (l' & d & Hl & Hsp).
  rewrite strip_id with (c := if neg then "-"%char else c)
                        (d := d)
                        (l1 := if neg then (c :: ds0) ++ "."%char :: df
                               else ds0 ++ "."%char :: df)
                        (l2 := sign_chars neg ++ l').
  - pose proof (Hstop false 0) as H0. cbn [app] in H0.
    destruct neg; cbn [sign_chars app].
    + cbv beta iota zeta. now rewrite H0.
    + clear Hs Hne Hd Hl.
      destruct c as [[] [] [] [] [] [] [] []]; try discriminate Hc;
        cbv beta iota zeta; now rewrite H0.
  - now destruct neg.
  - rewrite Hl. now rewrite app_assoc.
  - destruct neg; [reflexivity | now apply digit_props].
  - exact Hsp.
Qed.

Lemma range_text_match_frac (a b : Z) (frac rest : string) :
  all_digits (chars frac) = true ->
  starts_not is_digit (chars rest) = true ->
  starts_not (is_chr ".") (chars rest) = true ->
  exists m,
    py_re_match range_regex
      (str_of_int a +:+ "." +:+ frac +:+ ".." +:+ str_of_int b +:+ rest)
    = Some m /\
    group m "min" = str_of_int a +:+ "." +:+ frac.
Proof.
  intros Hf Hr Hdot.
  destruct (str_of_int_chars a) as (da & Hna & Hda & Hca & _).
  destruct (str_of_int_chars b) as (db & Hnb & Hdb & Hcb & _).
  rewrite sign_chars_ltb in Hca, Hcb.
  set (s := str_of_int a +:+ "." +:+ frac +:+ ".." +:+ str_of_int b +:+ rest).
  assert (Hs : chars s
               = (sign_chars (a <? 0) ++ da ++ "."%char :: chars frac)
                 ++ ["."%char; "."%char]
                 ++ (sign_chars (b <? 0) ++ db) ++ chars rest).
  { unfold s. rewrite !chars_app, Hca, Hcb. cbn [chars list_ascii_of_string].
    rewrite <- !app_assoc. reflexivity. }
  destruct (range_groups s _ _ _ _ Hs) as (m & Hm & Hmin & _).
  { rewrite Hs. now apply range_match_frac. }
  exists m. split; [exact Hm |]. rewrite Hmin.
  rewrite <- (string_of_chars (str_of_int a +:+ "." +:+ frac)).
  f_equal. rewrite !chars_app, Hca. cbn [chars list_ascii_of_string].
  now rewrite <- !app_assoc.
Qed.

Lemma integer_attrs_range_cases (res_node : Element) (a b : Z)
    (rest : string) :
  declared_range res_node
  = Some (str_of_int a +:+ ".." +:+ str_of_int b +:+ rest) ->
  range_suffix rest = true ->
  integer_attrs res_node
  = if b <=? 0 then inl ValueError
    else if derived_width a b <=? 64 then inr (a <? 0, derived_width a b)
         else inl AssertionError.
Proof.
  intros Hrange Hrest. apply andb_prop in Hrest as [Hr Hdot].
  rewrite (integer_attrs_range _ a b rest Hrange Hr Hdot).
  unfold ceil_log2_div8, derived_width.
  destruct (b <=? 0); [reflexivity |]. cbn [bind ret].
  set (k := (Z.log2_up b + 7) / 8).
  replace (if a <? 0 then k * 8 * 2 else k * 8)
    with (8 * k * (if a <? 0 then 2 else 1)) by (destruct (a <? 0); lia).
  now destruct (8 * k * (if a <? 0 then 2 else 1) <=? 64).
Qed.

(** X3. A field built from an Integer item whose range reads [a..b], with
    [a] written in at most 4300 characters (the most [int] converts) and
    [b] below [2^48], has [signed = (a < 0)] and the width
    [8 * ceil(log2(b) / 8)], doubled when signed; such a field exists only
    if [b] is positive and that width is at most 64. ASCII text after the
    range is ignored. *)
Theorem integer_range_attrs (res_node : Element) (r : LWM2MResource)
    (a b : Z) (rest : string) :
  LWM2MResource_init res_node = inr r ->
  r_type r = Some "Integer" ->
  declared_range res_node
  = Some (str_of_int a +:+ ".." +:+ str_of_int b +:+ rest) ->
  range_suffix rest = true -> isascii rest = true ->
  (String.length (str_of_int a) <= 4300)%nat -> b < 2 ^ 48 ->
  r_signed r = Some (a <? 0) /\
  r_byte_size r = Some (derived_width a b) /\
  0 < b /\ derived_width a b <= 64.
Proof.
  intros Hinit Htype Hrange Hrest _ _ _.
  apply LWM2MResource_init_inr in Hinit
    as (_ & _ & _ & _ & _ & _ & _ & Hattrs & _).
  rewrite Htype in Hattrs.
  change (opt_eqb (Some "Integer") "Integer") with true in Hattrs.
  destruct Hattrs as (att & Hatt & -> & ->).
  rewrite (integer_attrs_range_cases _ a b rest Hrange Hrest) in Hatt.
  destruct (Z.leb_spec b 0) as [Hb | Hb]; [discriminate Hatt |].
  destruct (Z.leb_spec (derived_width a b) 64) as [Hw | Hw];
    [| discriminate Hatt].
  injection Hatt as <-. cbn [fst snd]. repeat split; assumption.
Qed.

(** X4. An Integer item whose range reads [a..b], with [a] written in at
    most 4300 characters (the most [int] converts) and [b] below [2^48], is
    rejected with a [ValueError] when [b] is not positive and with an
    [AssertionError] when the derived width exceeds 64, which below [2^48]
    takes a negative [a] and a [b] above [2^32]. *)
Theorem integer_range_rejected (res_node : Element) (a b : Z)
    (rest : string) :
  declared_range res_node
  = Some (str_of_int a +:+ ".." +:+ str_of_int b +:+ rest) ->
  range_suffix rest = true -> isascii rest = true ->
  (String.length (str_of_int a) <= 4300)%nat -> b < 2 ^ 48 ->
  (b <= 0 -> integer_attrs res_node = inl ValueError) /\
  (0 < b -> 64 < derived_width a b ->
   integer_attrs res_node = inl AssertionError) /\
  (0 < b -> (64 < derived_width a b <-> a < 0 /\ 2 ^ 32 < b)) /\
  (b <= 0 \/ 64 < derived_width a b ->
   forall r, LWM2MResource_init res_node = inr r ->
             r_type r <> Some "Integer").
Proof.
  intros Hrange Hrest _ _ Hb48.
  pose proof (integer_attrs_range_cases _ a b rest Hrange Hrest) as H.
  split; [| split; [| split]].
  - intros Hb. rewrite H. now destruct (Z.leb_spec b 0); [| lia].
  - intros Hb Hw. rewrite H. destruct (Z.leb_spec b 0); [lia |].
    now destruct (Z.leb_spec (derived_width a b) 64); [lia |].
  - intros Hb. unfold derived_width.
    pose proof (Z.log2_up_nonneg b) as HL0.
    assert (HL48 : Z.log2_up b <= 48)
      by (apply Z.log2_up_le_pow2; lia).
    pose proof (Z.log2_up_lt_pow2 b 32 Hb) as [HL32 HL32'].
    set (L := Z.log2_up b) in *.
    pose proof (Z.div_mod (L + 7) 8 ltac:(lia)) as Hd.
    pose proof (Z.mod_pos_bound (L + 7) 8 ltac:(lia)) as Hm.
    set (k := (L + 7) / 8) in *. set (m := (L + 7) mod 8) in *.
    clearbody k m.
    destruct (Z.ltb_spec a 0).
    + split.
      * intros Hw. split; [assumption |]. apply HL32'. lia.
      * intros [_ Hb32]. apply HL32 in Hb32. lia.
    + split; [lia | intros [Ha _]; lia].
  - intros Hbad r Hinit Htype.
    apply LWM2MResource_init_inr in Hinit
      as (_ & _ & _ & _ & _ & _ & _ & Hatt & _).
    rewrite Htype in Hatt.
    change (opt_eqb (Some "Integer") "Integer") with true in Hatt.
    destruct Hatt as (att & Hatt & _). rewrite H in Hatt.
    destruct (Z.leb_spec b 0); [discriminate Hatt |].
    destruct (Z.leb_spec (derived_width a b) 64); [lia | discriminate Hatt].
Qed.

(** X5. A range whose minimum is written with a dot (a fraction, or a third
    dot as in [0...255]) matches the pattern, but [int] then rejects the
    minimum: the Integer branch ends in a [ValueError]. *)
Theorem fractional_range_rejected (res_node : Element) (a b : Z)
    (frac rest : string) :
  declared_range res_node
  = Some (str_of_int a +:+ "." +:+ frac +:+ ".." +:+ str_of_int b +:+ rest) ->
  all_digits (chars frac) = true ->
  range_suffix rest = true ->
  integer_attrs res_node = inl ValueError /\
  forall r, LWM2MResource_init res_node = inr r -> r_type r <> Some "Integer".
Proof.
  intros Hrange Hf Hrest. apply andb_prop in Hrest as [Hr Hdot].
  assert (Hattrs : integer_attrs res_node = inl ValueError).
  { unfold integer_attrs. rewrite (declared_range_find_text _ _ Hrange).
    cbn [bind].
    destruct (range_text_match_frac a b frac rest Hf Hr Hdot)
      as (m & Hm & Hmin).
    rewrite Hm. cbn [getattr bind ret]. rewrite Hmin.
    destruct (str_of_int_chars a) as (da & Hna & Hda & Hca & _).
    rewrite (py_int_fraction (a <? 0) da (chars frac)); [reflexivity | | | |];
      try assumption.
    rewrite !chars_app, Hca. cbn [chars list_ascii_of_string].
    now rewrite <- !app_assoc. }
  split; [exact Hattrs |]. intros r Hinit Htype.
  apply LWM2MResource_init_inr in Hinit
    as (_ & _ & _ & _ & _ & _ & _ & Hatt & _).
  rewrite Htype in Hatt.
  change (opt_eqb (Some "Integer") "Integer") with true in Hatt.
  destruct Hatt as (att & Hatt & _). rewrite Hattrs in Hatt.
  discriminate Hatt.
Qed.

(** X6. An Integer item whose range text holds no dot at all, such as an
    enumeration or [0-100], does not match the pattern: the Integer branch
    ends in the [AttributeError] of [m.group] on [None]. *)
Theorem dotless_range_rejected (res_node : Element) (s : string) :
  declared_range res_node = Some s ->
  ~ In "."%char (chars s) ->
  integer_attrs res_node = inl AttributeError /\
  forall r, LWM2MResource_init res_node = inr r -> r_type r <> Some "Integer".
Proof.
  intros Hrange Hnodot.
  assert (Hattrs : integer_attrs res_node = inl AttributeError).
  { unfold integer_attrs. rewrite (declared_range_find_text _ _ Hrange).
    cbn [bind].
    destruct (py_re_match range_regex s) as [m|] eqn:Em; [| reflexivity].
    exfalso. apply Hnodot. apply range_regex_needs_dot. now rewrite Em. }
  split; [exact Hattrs |]. intros r Hinit Htype.
  apply LWM2MResource_init_inr in Hinit
    as (_ & _ & _ & _ & _ & _ & _ & Hatt & _).
  rewrite Htype in Hatt.
  change (opt_eqb (Some "Integer") "Integer") with true in Hatt.
  destruct Hatt as (att & Hatt & _). rewrite Hattrs in Hatt.
  discriminate Hatt.
Qed.

Lemma integer_range_attrs_witness :
  exists r,
    LWM2MResource_init (range_item "-40..85 degrees") = inr r /\
    r_signed r = Some true /\ r_byte_size r = Some 16.
Proof.
  destruct (LWM2MResource_init (range_item "-40..85 degrees"))
    as [e|r] eqn:E; [vm_compute in E; discriminate E |].
  exists r. split; [reflexivity |].
  destruct (integer_range_attrs (range_item "-40..85 degrees") r
              (-40) 85 " degrees" E) as (Hs & Hw & _);
    [vm_compute in E; injection E as <-; reflexivity
    | reflexivity | reflexivity | reflexivity | vm_compute; lia
    | reflexivity |].
  split; [exact Hs | exact Hw].
Defined.

Lemma integer_range_rejected_witness :
  integer_attrs (range_item "-10..0") = inl ValueError /\
  integer_attrs (range_item "-1..4294967297") = inl AssertionError.
Proof.
  split.
  - apply (integer_range_rejected (range_item "-10..0") (-10) 0 EmptyString);
      [reflexivity | reflexivity | reflexivity | vm_compute; lia
      | reflexivity | lia].
  - apply (integer_range_rejected (range_item "-1..4294967297") (-1)
             4294967297 EmptyString);
      [reflexivity | reflexivity | reflexivity | vm_compute; lia
      | reflexivity | lia | vm_compute; reflexivity].
Defined.

Lemma fractional_range_rejected_witness :
  integer_attrs (range_item "0...255") = inl ValueError /\
  integer_attrs (range_item "0.5..1") = inl ValueError.
Proof.
  split.
  - apply (fractional_range_rejected (range_item "0...255") 0 255
             EmptyString EmptyString); reflexivity.
  - apply (fractional_range_rejected (range_item "0.5..1") 0 1
             "5" EmptyString); reflexivity.
Defined.

Lemma dotless_range_rejected_witness :
  integer_attrs (range_item "0-100") = inl AttributeError.
Proof.
  apply (dotless_range_rejected (range_item "0-100") "0-100");
    [reflexivity |].
  cbn. intros H. repeat (destruct H as [H | H]; [discriminate H |]). exact H.
Defined.

(** ** What the constructors guarantee *)

Lemma integer_attrs_bounds (res_node : Element) (s : bool) (w : Z) :
  integer_attrs res_node = inr (s, w) ->
  0 <= w <= 64 /\ (8 | w) /\ (s = true -> (16 | w)).
Proof.
  unfold integer_attrs, ret, raise. intros H. bind_inr H.
  match type of H with
  | match ?o with Some _ => _ | None => _ end = _ => destruct o as [rs|]
  end.
  - do 4 bind_inr H. bind_inr H. injection H as <- <-.
    match goal with
    | E : ceil_log2_div8 ?v = inr _ |- _ =>
        unfold ceil_log2_div8 in E; destruct (v <=? 0); [discriminate E |];
        injection E as <-;
        pose proof (Z.log2_up_nonneg v) as Hl;
        assert (Hk : 0 <= (Z.log2_up v + 7) / 8) by (apply Z.div_pos; lia);
        set (k := (Z.log2_up v + 7) / 8) in *
    end.
    match goal with
    | E : py_assert (?c <=? 64) = inr _ |- _ =>
        destruct (Z.leb_spec c 64) as [Hw | Hw]; [| discriminate E]
    end.
    match goal with
    | |- context [?m <? 0] => destruct (m <? 0)
    end.
    + split; [lia |]. split; [exists (k * 2); lia |].
      intros _. exists k. lia.
    + split; [lia |]. split; [exists k; lia | discriminate].
  - injection H as <- <-. split; [lia |]. split; [now exists 4 |].
    intros _. now exists 2.
Qed.

(** X7. Every Integer field the constructor builds carries a signedness and
    a width; the width is a multiple of 8 between 0 and 64, and a multiple
    of 16 when the field is signed. *)
Theorem integer_width_invariant (res_node : Element) (r : LWM2MResource) :
  LWM2MResource_init res_node = inr r ->
  r_type r = Some "Integer" ->
  exists (s : bool) (w : Z),
    r_signed r = Some s /\ r_byte_size r = Some w /\
    0 <= w <= 64 /\ (8 | w) /\ (s = true -> (16 | w)).
Proof.
  intros Hinit Htype.
  apply LWM2MResource_init_inr in Hinit
    as (_ & _ & _ & _ & _ & _ & _ & Hattrs & _).
  rewrite Htype in Hattrs.
  change (opt_eqb (Some "Integer") "Integer") with true in Hattrs.
  destruct Hattrs as ([s w] & Hatt & -> & ->). exists s, w.
  split; [reflexivity |]. split; [reflexivity |].
  now apply (integer_attrs_bounds res_node).
Qed.

Lemma integer_width_invariant_witness :
  exists r s w,
    LWM2MResource_init (range_item "0..70000") = inr r /\
    r_signed r = Some s /\ r_byte_size r = Some w /\ 0 <= w <= 64 /\ (8 | w).
Proof.
  destruct (LWM2MResource_init (range_item "0..70000")) as [e|r] eqn:E;
    [vm_compute in E; discriminate E |].
  destruct (integer_width_invariant _ r E) as (s & w & Hs & Hw & Hb & Hd & _).
  - vm_compute in E. injection E as <-. reflexivity.
  - exists r, s, w. auto.
Defined.

Lemma opt_eqb_eq (o : option string) (s : string) :
  opt_eqb o s = true <-> o = Some s.
Proof.
  destruct o as [t|]; cbn [opt_eqb].
  - rewrite String.eqb_eq. split; [now intros -> | now intros [= ->]].
  - split; discriminate.
Qed.

(** X8. What every built field satisfies: a field that is not an execute
    field has a non-empty type; the Integer attributes are set exactly for
    the type Integer; so neither type dispatch can fail on a missing
    attribute: each returns a type or raises the unhandled-type exception. *)
Theorem resource_invariant (res_node : Element) (r : LWM2MResource) :
  LWM2MResource_init res_node = inr r ->
  (is_exec r = false -> exists t, r_type r = Some t /\ t <> EmptyString) /\
  (r_type r = Some "Integer" <-> r_signed r <> None) /\
  (r_type r = Some "Integer" <-> r_byte_size r <> None) /\
  member_type r <> inl AttributeError /\
  field_type_tag r <> inl AttributeError.
Proof.
  intros Hinit. pose proof (LWM2MResource_init_inv _ _ Hinit) as Hinv.
  apply LWM2MResource_init_inr in Hinit
    as (_ & _ & _ & _ & _ & _ & _ & Hattrs & Htype).
  split; [| split; [| split; [| split]]].
  - intros Hex. destruct (Htype Hex) as (t & Ht & Hlen). exists t.
    split; [exact Ht |]. intros ->. discriminate Hlen.
  - rewrite <- opt_eqb_eq. destruct (opt_eqb (r_type r) "Integer").
    + destruct Hattrs as (a & _ & -> & _). split; [discriminate | reflexivity].
    + destruct Hattrs as [-> _]. split; [discriminate | now intros H].
  - rewrite <- opt_eqb_eq. destruct (opt_eqb (r_type r) "Integer").
    + destruct Hattrs as (a & _ & _ & ->). split; [discriminate | reflexivity].
    + destruct Hattrs as [_ ->]. split; [discriminate | now intros H].
  - destruct (known_type (r_type r)) eqn:Ek.
    + destruct (member_type_known r Hinv Ek) as [ts ->]. discriminate.
    + rewrite (member_type_unknown r Ek). discriminate.
  - destruct (known_type (r_type r)) eqn:Ek.
    + destruct (field_type_tag_known r Hinv Ek) as [ts ->]. discriminate.
    + rewrite (field_type_tag_unknown r Ek). discriminate.
Qed.

Lemma resource_invariant_witness :
  exists r,
    LWM2MResource_init (range_item "0..70000") = inr r /\
    r_signed r <> None /\ member_type r <> inl AttributeError.
Proof.
  destruct (LWM2MResource_init (range_item "0..70000")) as [e|r] eqn:E;
    [vm_compute in E; discriminate E |].
  destruct (resource_invariant _ r E) as (_ & Hs & _ & Hm & _).
  exists r. split; [reflexivity |]. split; [| exact Hm].
  apply Hs. vm_compute in E. injection E as <-. reflexivity.
Defined.

Lemma mapM_Forall2 {A B} (f : A -> result B) (l : list A) (bs : list B) :
  mapM f l = inr bs -> Forall2 (fun a b => f a = inr b) l bs.
Proof.
  revert bs. induction l as [|a l IH]; intros bs H; cbn [mapM] in H.
  - injection H as <-. constructor.
  - unfold ret in H. bind_inr H. bind_inr H. injection H as <-.
    constructor; [assumption | now apply IH].
Qed.

(** ** Rendering a well-formed object *)

Ltac unfold_names :=
  unfold gen_res_id_name, gen_res_max_name, gen_res_def_name,
    gen_exec_cb_name, gen_obj_id_def, gen_max_id, gen_data_struct_type,
    gen_data_struct_var_name.

Section Renderable.

Variable obj : LWM2MObject.
Hypothesis Hnamed : named obj = true.
Hypothesis Hinv : forallb res_inv (o_resources obj) = true.
Hypothesis Htyped : typed obj = true.

Lemma typed_In (r : LWM2MResource) :
  In r (o_resources obj) -> is_exec r = false ->
  known_type (r_type r) = true.
Proof.
  intros Hin Hex. pose proof (forallb_In _ _ _ Htyped Hin) as H.
  cbn beta in H. now rewrite Hex in H.
Qed.

Lemma gen_data_struct_ok : snd (gen_data_struct obj) = None.
Proof.
  destruct (named_obj_name _ Hnamed) as [on Hon].
  unfold gen_data_struct. unfold_names. rewrite Hon.
  repeat (apply gseq_snd_None); try solve [gen_ok].
  apply gfor_snd_None. intros r Hr.
  destruct (is_exec r) eqn:Ex; [reflexivity |].
  destruct (member_type_known r (forallb_In _ _ _ Hinv Hr)
              (typed_In r Hr Ex)) as [ts ->].
  destruct (named_res_name _ Hnamed _ Hr) as [rn ->]. reflexivity.
Qed.

Lemma gen_field_ok (r : LWM2MResource) :
  In r (o_resources obj) -> exists f, gen_field obj r = inr f.
Proof.
  intros Hr. destruct (gen_res_id_name_named _ Hnamed _ Hr) as [n Hn].
  unfold gen_field. destruct (is_exec r) eqn:Ex.
  - rewrite Hn. cbn [bind ret]. eauto.
  - destruct (field_type_tag_known r (forallb_In _ _ _ Hinv Hr)
                (typed_In r Hr Ex)) as [t ->].
    rewrite Hn. cbn [bind ret]. eauto.
Qed.

Lemma enumerate_from_snd_In {A} (l : list A) (i j : Z) (a : A) :
  In (j, a) (enumerate_from i l) -> In a l.
Proof.
  revert i. induction l as [|x l IH]; intros i H; [destruct H |].
  destruct H as [[= _ ->] | H]; [now left | right; eauto].
Qed.

Lemma gen_fields_ok : snd (gen_fields obj) = None.
Proof.
  destruct (named_obj_name _ Hnamed) as [on Hon].
  unfold gen_fields. unfold_names. rewrite Hon.
  repeat (apply gseq_snd_None); try solve [gen_ok].
  apply gfor_snd_None. intros [j r] Hr. cbn [fst snd].
  apply enumerate_from_snd_In in Hr.
  destruct (gen_field_ok r Hr) as [f ->]. gen_ok.
Qed.

Lemma gen_exec_cbs_ok : snd (gen_exec_cbs obj) = None.
Proof.
  unfold gen_exec_cbs. apply gfor_snd_None. intros r Hr.
  destruct (named_res_name _ Hnamed _ Hr) as [rn Hrn].
  destruct (negb (is_exec r) || negb (r_mandatory r)); [reflexivity |].
  unfold_names. rewrite Hrn. gen_ok.
Qed.

Lemma gen_create_body_ok (data_str res_str res_inst_str inst_str : string) :
  snd (gen_create_body obj data_str res_str res_inst_str inst_str) = None.
Proof.
  destruct (named_obj_name _ Hnamed) as [on Hon].
  unfold gen_create_body.
  repeat (apply gseq_snd_None); try solve [gen_ok].
  apply gfor_snd_None. intros r Hr.
  destruct (named_res_name _ Hnamed _ Hr) as [rn Hrn].
  unfold_names. rewrite Hon, Hrn.
  destruct (is_exec r); gen_ok.
Qed.

Lemma gen_create_func_ok : snd (gen_create_func obj) = None.
Proof.
  destruct (named_obj_name _ Hnamed) as [on Hon].
  unfold gen_create_func. unfold_names. rewrite Hon.
  repeat first [apply gen_create_body_ok | gen_ok_step].
Qed.

Lemma gen_init_func_ok : snd (gen_init_func obj) = None.
Proof.
  destruct (named_obj_name _ Hnamed) as [on Hon].
  unfold gen_init_func. unfold_names. rewrite Hon. gen_ok.
Qed.

Lemma render_ok :
  snd (render obj) = None /\
  fst (render obj)
  = fst (gen_file_head obj) ++ fst (gen_res_defs obj)
    ++ fst (gen_res_inst_count obj) ++ fst (gen_data_struct obj)
    ++ fst (gen_fields obj) ++ fst (gen_exec_cbs obj)
    ++ fst (gen_create_func obj) ++ fst (gen_init_func obj).
Proof.
  unfold render.
  rewrite (gseq_ok _ _ (gen_file_head_ok obj Hnamed)).
  rewrite (gseq_ok _ _ (gen_res_defs_ok obj Hnamed)).
  rewrite (gseq_ok _ _ (gen_res_inst_count_ok obj Hnamed)).
  rewrite (gseq_ok _ _ gen_data_struct_ok).
  rewrite (gseq_ok _ _ gen_fields_ok).
  rewrite (gseq_ok _ _ gen_exec_cbs_ok).
  rewrite (gseq_ok _ _ gen_create_func_ok).
  cbn [fst snd]. split; [apply gen_init_func_ok | reflexivity].
Qed.

End Renderable.

(** ** How a run ends and what it touches *)

Lemma forallb_false_In {A} (p : A -> bool) (l : list A) :
  forallb p l = false -> exists a, In a l /\ p a = false.
Proof.
  induction l as [|x l IH]; cbn [forallb]; [discriminate |].
  destruct (p x) eqn:E.
  - intros H. destruct (IH H) as (a & Ha & Hp). exists a. split; [now right | exact Hp].
  - intros _. exists x. split; [now left | exact E].
Qed.

Lemma render_unnamed (obj : LWM2MObject) :
  named obj = false -> snd (render obj) = Some AttributeError.
Proof.
  unfold named. intros H. unfold render.
  destruct (o_name obj) as [on|] eqn:Hon.
  - cbn [is_some andb] in H.
    destruct (forallb_false_In _ _ H) as (r & Hr & Hname).
    destruct (r_name r) as [rn|] eqn:Hrn; [discriminate Hname |].
    apply gseq_snd_Some_r.
    { unfold gen_file_head. rewrite Hon. gen_ok. }
    apply gseq_snd_Some_l. unfold gen_res_defs, gen_obj_id_def. rewrite Hon.
    apply gseq_snd_Some_r; [gen_ok |].
    apply gseq_snd_Some_r; [gen_ok |].
    apply gseq_snd_Some_r; [gen_ok |].
    apply gseq_snd_Some_l. apply gfor_raise.
    + intros a Ha. unfold gen_res_id_name, gen_res_def_name. rewrite Hon.
      destruct (r_name a); [left | right]; reflexivity.
    + exists r. split; [exact Hr |].
      unfold gen_res_id_name, gen_res_def_name. now rewrite Hon, Hrn.
  - apply gseq_snd_Some_l. unfold gen_file_head. now rewrite Hon.
Qed.

Lemma render_end_inv (obj : LWM2MObject) :
  forallb res_inv (o_resources obj) = true ->
  snd (render obj) = render_end obj.
Proof.
  intros Hinv. unfold render_end. destruct (named obj) eqn:Hn; cbn [negb].
  - destruct (typed obj) eqn:Ht.
    + now apply render_ok.
    + destruct (forallb_false_In _ _ Ht) as (r & Hr & Hp).
      apply orb_false_elim in Hp as [Hex Hk].
      now apply (render_unhandled obj r).
  - now apply render_unnamed.
Qed.

(** X10. Rendering an object built by the constructor ends in exactly one of
    three ways: with an [AttributeError] when the object or one of its
    fields has no name, normally when every field that is not an execute
    field has a known type, and with the unhandled-type exception
    otherwise. *)
Theorem render_outcome (obj_node : option Element) (obj : LWM2MObject) :
  LWM2MObject_init obj_node = inr obj ->
  snd (render obj) = render_end obj.
Proof.
  intros Hinit. apply render_end_inv.
  exact (LWM2MObject_init_inv _ _ Hinit).
Qed.

Lemma render_outcome_witness :
  snd (render sample_obj) = None /\
  snd (render corge_obj) = Some unhandled.
Proof.
  split.
  - apply (render_outcome (find sample_root "Object")). reflexivity.
  - apply (render_outcome (find corge_root "Object")). reflexivity.
Defined.

(** X11. Once the document has built a named object whose data fields all
    have known types: if the output file can be opened, the run ends
    normally and the file holds the fragments of the eight stages, in their
    order; if it cannot, the run ends with the error of [open] and leaves
    the files as they were. A run given a path ends normally only in the
    first case. *)
Theorem main_complete_output (argv : list string) (w : World) :
  (2 <= length argv)%nat ->
  (forall root obj on,
     files w !! nth 1 argv EmptyString = Some (XmlDoc root) ->
     LWM2MObject_init (find root "Object") = inr obj ->
     o_name obj = Some on -> named obj = true -> typed obj = true ->
     (open_w ("lwm2m_obj_" +:+ NAME on +:+ "_stub.c") = inr tt ->
      main argv w
      = (mkWorld
           (<[ "lwm2m_obj_" +:+ NAME on +:+ "_stub.c" :=
               Text (String.concat EmptyString
                       (fst (gen_file_head obj) ++ fst (gen_res_defs obj)
                        ++ fst (gen_res_inst_count obj)
                        ++ fst (gen_data_struct obj) ++ fst (gen_fields obj)
                        ++ fst (gen_exec_cbs obj)
                        ++ fst (gen_create_func obj)
                        ++ fst (gen_init_func obj))) ]> (files w))
           (stdout w),
         inr tt)) /\
     (forall e,
        open_w ("lwm2m_obj_" +:+ NAME on +:+ "_stub.c") = inl e ->
        main argv w = (w, inl e))) /\
  (snd (main argv w) = inr tt ->
   exists root obj on,
     files w !! nth 1 argv EmptyString = Some (XmlDoc root) /\
     LWM2MObject_init (find root "Object") = inr obj /\
     o_name obj = Some on /\
     named obj = true /\ typed obj = true /\
     open_w ("lwm2m_obj_" +:+ NAME on +:+ "_stub.c") = inr tt).
Proof.
  intros Hlen.
  assert (Hl : (length argv <? 2)%nat = false) by (apply Nat.ltb_ge; lia).
  split.
  - intros root obj on Hfile Hinit Hon Hn Ht.
    pose proof (LWM2MObject_init_inv _ _ Hinit) as Hinv.
    destruct (render_ok obj Hn Hinv Ht) as [Hs Hf].
    unfold main, ET_parse. rewrite Hl, Hfile. cbn [ret].
    rewrite Hinit, Hon, name_format_Some. unfold with_open_w. split.
    + intros Hopen. now rewrite Hopen, Hs, Hf.
    + intros e Hopen. now rewrite Hopen.
  - intros Hres.
    destruct (main_cases argv w)
      as [(Hl' & _) | [(e & H)
                      | (root & obj & n & _ & Hf & Ho & Hn & Hopen & H)]].
    + congruence.
    + rewrite H in Hres. discriminate Hres.
    + destruct (o_name obj) as [on|] eqn:Hon; [| discriminate Hn].
      rewrite name_format_Some in Hn. injection Hn as <-.
      exists root, obj, on. split; [exact Hf |]. split; [exact Ho |].
      split; [exact Hon |].
      rewrite H in Hres. cbn [snd] in Hres.
      rewrite (render_end_inv _ (LWM2MObject_init_inv _ _ Ho)) in Hres.
      unfold render_end in Hres.
      destruct (named obj); [| discriminate Hres].
      destruct (typed obj); [auto | discriminate Hres].
Qed.

Lemma main_complete_output_witness :
  (snd (main sample_argv (sample_world sample_root)) = inr tt /\
   exists data,
     files (fst (main sample_argv (sample_world sample_root))) !! stub_path
     = Some (Text data)) /\
  main sample_argv (sample_world on_off_root)
  = (sample_world on_off_root, inl OSError).
Proof.
  split.
  - destruct (main_complete_output sample_argv (sample_world sample_root))
      as [H _]; [apply le_n |].
    destruct (H sample_root sample_obj "Test Object") as [Hok _];
      [vm_compute; reflexivity | vm_compute; reflexivity | reflexivity ..|].
    rewrite (Hok eq_refl).
    split; [reflexivity |]. eexists. cbn [fst files].
    apply lookup_insert_eq.
  - destruct (main_complete_output sample_argv (sample_world on_off_root))
      as [H _]; [apply le_n |].
    destruct (H on_off_root on_off_obj "On/Off switch") as [_ Hfail];
      [vm_compute; reflexivity | vm_compute; reflexivity | reflexivity ..|].
    apply Hfail. reflexivity.
Defined.

(** X12. A run changes at most one file, the stub named after the object,
    and only after the document has built an object with a name; it never
    removes a file, and with a path argument it prints nothing. *)
Theorem main_frame (argv : list string) (w : World) (f : string) :
  (files (fst (main argv w)) !! f <> files w !! f ->
   exists root obj on data,
     files w !! nth 1 argv EmptyString = Some (XmlDoc root) /\
     LWM2MObject_init (find root "Object") = inr obj /\
     o_name obj = Some on /\
     f = "lwm2m_obj_" +:+ NAME on +:+ "_stub.c" /\
     files (fst (main argv w)) !! f = Some (Text data)) /\
  (files w !! f <> None -> files (fst (main argv w)) !! f <> None) /\
  ((2 <= length argv)%nat -> stdout (fst (main argv w)) = stdout w).
Proof.
  destruct (main_cases argv w)
    as [(Hl & H) | [(e & H)
                    | (root & obj & n & Hl & Hf & Ho & Hn & Hopen & H)]];
    rewrite H; cbn [fst files stdout].
  - split; [now intros Hne |]. split; [auto |].
    intros Hlen. apply Nat.ltb_lt in Hl. lia.
  - split; [now intros Hne |]. auto.
  - clear Hopen.
    destruct (o_name obj) as [on|] eqn:Hon; [| discriminate Hn].
    rewrite name_format_Some in Hn. injection Hn as <-.
    split; [| split; [| reflexivity]].
    + intros Hne.
      destruct (decide ("lwm2m_obj_" +:+ NAME on +:+ "_stub.c" = f))
        as [<- | Hd].
      * exists root, obj, on. eexists. repeat (split; [eassumption || reflexivity |]).
        apply lookup_insert_eq.
      * now rewrite lookup_insert_ne in Hne.
    + intros Hsome.
      destruct (decide ("lwm2m_obj_" +:+ NAME on +:+ "_stub.c" = f))
        as [<- | Hd].
      * now rewrite lookup_insert_eq.
      * now rewrite lookup_insert_ne.
Qed.

Lemma main_frame_witness :
  stdout (fst (main sample_argv (sample_world sample_root))) = [] /\
  files (fst (main sample_argv (sample_world sample_root))) !! "in.xml"
  <> None.
Proof.
  destruct (main_frame sample_argv (sample_world sample_root) "in.xml")
    as (_ & Hkeep & Hout).
  split.
  - rewrite Hout; [reflexivity | apply le_n].
  - apply Hkeep. vm_compute. discriminate.
Defined.

(** ** The field table *)

Lemma sconcat_sep_cons (sep x y : string) (l : list string) :
  String.concat sep (x :: y :: l) = x +:+ sep +:+ String.concat sep (y :: l).
Proof. reflexivity. Qed.

Lemma field_entries (obj : LWM2MObject) (l : list LWM2MResource)
    (fs : list string) (i n : Z) :
  mapM (gen_field obj) l = inr fs ->
  i + Z.of_nat (length l) = n ->
  exists frags,
    gfor (enumerate_from i l) (field_entry obj n) = (frags, None) /\
    String.concat EmptyString frags = table_text fs.
Proof.
  revert fs i. induction l as [|r l IH]; intros fs i Hm Hn.
  - cbn [mapM] in Hm. injection Hm as <-. exists []. split; reflexivity.
  - cbn [mapM] in Hm. unfold ret in Hm. bind_inr Hm. bind_inr Hm.
    injection Hm as <-. cbn [length] in Hn.
    destruct (IH l0 (i + 1) eq_refl ltac:(lia)) as (frags & Hg & Hc).
    cbn [enumerate_from gfor]. rewrite Hg. unfold field_entry at 1.
    cbn [fst snd]. rewrite E. cbn [gbind].
    destruct l as [|r' l].
    + cbn [mapM] in E0. injection E0 as <-.
      destruct (Z.ltb_spec i (n - 1)) as [H | _]; [cbn [length] in Hn; lia |].
      cbn [enumerate_from gfor] in Hg. injection Hg as <-.
      eexists. split; [reflexivity |]. reflexivity.
    + destruct (Z.ltb_spec i (n - 1)) as [_ | H]; [| cbn [length] in Hn; lia].
      destruct l0 as [|f' fs'].
      { cbn [mapM] in E0. unfold ret in E0. bind_inr E0. bind_inr E0.
        discriminate E0. }
      eexists. split; [reflexivity |].
      cbn [gseq gyield fst snd app]. rewrite !sconcat_cons, Hc.
      unfold table_text. cbn [map]. rewrite sconcat_sep_cons.
      now rewrite !sapp_assoc.
Qed.

(** X13. When every field has a descriptor, the field table holds one entry
    per field in order, each on its own line after a tab, with a comma after
    every entry but the last. *)
Theorem field_table_entries (obj : LWM2MObject) (on : string)
    (fs : list string) :
  o_name obj = Some on ->
  mapM (gen_field obj) (o_resources obj) = inr fs ->
  exists entries rest,
    gen_fields obj
    = ([ "static struct lwm2m_engine_obj " +:+ NAME on +:+ ";" +:+ nl;
         "static struct lwm2m_engine_obj_field fields[] = {" +:+ nl ]
       ++ entries ++ [ "};" +:+ nl +:+ nl ] ++ rest, None) /\
    String.concat EmptyString entries = table_text fs /\
    length fs = length (o_resources obj).
Proof.
  intros Hon Hm.
  destruct (field_entries obj (o_resources obj) fs 0
              (Z.of_nat (length (o_resources obj))) Hm eq_refl)
    as (frags & Hg & Hc).
  exists frags. unfold gen_fields, gen_max_id.
  rewrite Hon, name_format_Some, def_format_Some. cbn [gbind bind ret].
  change (gfor (enumerate (o_resources obj)) _)
    with (gfor (enumerate_from 0 (o_resources obj))
            (field_entry obj (Z.of_nat (length (o_resources obj))))).
  rewrite Hg. eexists. split; [| split; [exact Hc |]].
  - cbn [gseq gyield fst snd]. rewrite <- ?app_assoc. reflexivity.
  - apply mapM_Forall2 in Hm. symmetry. now apply Forall2_length in Hm.
Qed.

Lemma field_table_entries_witness :
  exists entries rest,
    fst (gen_fields sample_obj)
    = [ "static struct lwm2m_engine_obj test_object;" +:+ nl;
        "static struct lwm2m_engine_obj_field fields[] = {" +:+ nl ]
      ++ entries ++ [ "};" +:+ nl +:+ nl ] ++ rest /\
    String.concat EmptyString entries
    = tab +:+ "OBJ_FIELD_DATA(TEST_OBJECT_FIELD_A_ID, RW, U8)," +:+ nl
      +:+ tab +:+ "OBJ_FIELD_EXECUTE(TEST_OBJECT_FIELD_B_ID)," +:+ nl
      +:+ tab +:+ "OBJ_FIELD_DATA(TEST_OBJECT_FIELD_C_ID, R_OPT, S32)" +:+ nl.
Proof.
  destruct (field_table_entries sample_obj "Test Object"
              [ "OBJ_FIELD_DATA(TEST_OBJECT_FIELD_A_ID, RW, U8)";
                "OBJ_FIELD_EXECUTE(TEST_OBJECT_FIELD_B_ID)";
                "OBJ_FIELD_DATA(TEST_OBJECT_FIELD_C_ID, R_OPT, S32)" ])
    as (entries & rest & Hg & Hc & _); [reflexivity | reflexivity |].
  exists entries, rest. rewrite Hg. split; [reflexivity |].
  rewrite Hc. reflexivity.
Defined.

(** ** Names used by one stage and defined by another *)

Lemma gen_res_defs_In_maxes (obj : LWM2MObject) (s : string) :
  named obj = true ->
  In s (fst (gen_res_defs_maxes obj)) -> In s (fst (gen_res_defs obj)).
Proof.
  intros Hn Hs. destruct (named_obj_name _ Hn) as [on Hon].
  unfold gen_res_defs, gen_obj_id_def, gen_max_id. rewrite Hon.
  repeat (apply gseq_In_r;
          [first [apply (gen_res_defs_ids_ok obj Hn) | solve [gen_ok]] |]).
  exact Hs.
Qed.

(** X14. Every maximum-instance constant that RESOURCE_INSTANCE_COUNT adds is
    defined by the constants stage, as the build-time override when there
    is one and as 1 otherwise. *)
Theorem instance_count_macros_defined (obj : LWM2MObject)
    (r : LWM2MResource) :
  named obj = true -> In r (multi_data_fields obj) ->
  exists m,
    gen_res_max_name obj r = inr m /\
    In (cont_line m) (fst (gen_res_inst_count obj)) /\
    In ("#ifdef CONFIG_" +:+ m +:+ nl) (fst (gen_res_defs obj)) /\
    In ("#define " +:+ m +:+ " CONFIG_" +:+ m +:+ nl)
       (fst (gen_res_defs obj)) /\
    In ("#define " +:+ m +:+ " 1" +:+ nl) (fst (gen_res_defs obj)).
Proof.
  intros Hn Hr. pose proof (multi_data_fields_In _ _ Hr) as Hin.
  destruct (gen_res_max_name_named _ Hn _ Hin) as [m Hm]. exists m.
  split; [exact Hm |].
  assert (Hsing : r_singleton r = false).
  { unfold multi_data_fields in Hr. apply filter_In in Hr as [_ Hr].
    apply andb_prop in Hr as [_ Hr]. now apply negb_true_iff in Hr. }
  assert (Hdefs : forall s,
            In s [ "#ifdef CONFIG_" +:+ m +:+ nl;
                   "#define " +:+ m +:+ " CONFIG_" +:+ m +:+ nl;
                   "#else" +:+ nl; fixme_default;
                   "#define " +:+ m +:+ " 1" +:+ nl;
                   "#endif" +:+ nl +:+ nl ] ->
            In s (fst (gen_res_defs obj))).
  { intros s Hs. apply (gen_res_defs_In_maxes obj s Hn).
    apply (gfor_In _ _ r); [apply (gen_res_defs_maxes_ok obj Hn) | exact Hin |].
    cbn beta. now rewrite Hsing, Hm. }
  split; [| repeat split; apply Hdefs; cbn; auto 10].
  destruct (named_obj_name _ Hn) as [on Hon].
  pose proof (gen_res_inst_count_ok obj Hn) as Hok.
  unfold gen_res_inst_count in *. rewrite count_loop_spec in *.
  cbv beta iota zeta in *.
  assert (Hpos : (0 <? Z.of_nat (length (multi_data_fields obj))) = true).
  { apply Z.ltb_lt. destruct (multi_data_fields obj); [destruct Hr |].
    cbn [length]. lia. }
  rewrite Hpos in *.
  repeat (apply gseq_snd_None_inv in Hok as [? Hok]).
  do 8 (apply gseq_In_r; [assumption |]).
  apply gseq_In_l. apply (gfor_In _ _ r); [assumption | exact Hr |].
  cbn beta. rewrite Hm. now left.
Qed.

Lemma instance_count_macros_defined_witness :
  In (cont_line "TEST_OBJECT_FIELD_C_MAX")
     (fst (gen_res_inst_count sample_obj)) /\
  In ("#define TEST_OBJECT_FIELD_C_MAX 1" +:+ nl)
     (fst (gen_res_defs sample_obj)).
Proof.
  destruct (instance_count_macros_defined sample_obj sample_res_c)
    as (m & Hm & Hc & _ & _ & Hd);
    [reflexivity | left; reflexivity |].
  vm_compute in Hm. injection Hm as <-. split; [exact Hc | exact Hd].
Defined.

Lemma gen_create_func_In_body (obj : LWM2MObject) (s : string) :
  named obj = true ->
  (forall data_str res_str res_inst_str inst_str,
     In s (fst (gen_create_body obj data_str res_str res_inst_str inst_str))) ->
  In s (fst (gen_create_func obj)).
Proof.
  intros Hn Hs. destruct (named_obj_name _ Hn) as [on Hon].
  unfold gen_create_func. unfold_names. rewrite Hon.
  do 5 (apply gseq_In_r; [solve [gen_ok] |]).
  destruct (o_singleton obj); cbn [negb].
  - apply gseq_In_r; [solve [gen_ok] |]. cbn [bind ret getattr name_format gbind].
    apply Hs.
  - do 6 (apply gseq_In_r; [solve [gen_ok] |]). apply Hs.
Qed.

(** X15. Every execute field is initialised with a callback that exists: a
    mandatory one with its own stub, which the callback stage defines; an
    optional one with NULL. *)
Theorem exec_callbacks_defined (obj : LWM2MObject) (r : LWM2MResource) :
  named obj = true -> In r (o_resources obj) -> is_exec r = true ->
  exists c,
    gen_exec_cb_name r = inr c /\
    (r_mandatory r = true ->
     In c (fst (gen_create_func obj)) /\
     forall s, In s (exec_cb_stub c) -> In s (fst (gen_exec_cbs obj))) /\
    (r_mandatory r = false -> In "NULL" (fst (gen_create_func obj))).
Proof.
  intros Hn Hin Hex.
  destruct (named_obj_name _ Hn) as [on Hon].
  destruct (named_res_name _ Hn _ Hin) as [rn Hrn].
  exists ("state_" +:+ NAME rn +:+ "_exec_cb").
  assert (Hcb : gen_exec_cb_name r
                = inr ("state_" +:+ NAME rn +:+ "_exec_cb"))
    by (unfold gen_exec_cb_name; now rewrite Hrn).
  split; [exact Hcb |].
  assert (Hbody : forall s,
            In s [ "state_" +:+ NAME rn +:+ "_exec_cb"; "NULL" ] ->
            (s = "NULL" <-> r_mandatory r = false) ->
            In s (fst (gen_create_func obj))).
  { intros s Hs Hmand. apply gen_create_func_In_body; [exact Hn |].
    intros ds rs ris ins.
    pose proof (gen_create_body_ok obj Hn ds rs ris ins) as Hok.
    unfold gen_create_body in *.
    do 4 (apply gseq_snd_None_inv in Hok as [_ Hok]).
    apply gseq_snd_None_inv in Hok as [Hok _].
    do 4 (apply gseq_In_r; [solve [gen_ok] |]). apply gseq_In_l.
    apply (gfor_In _ _ r); [exact Hok | exact Hin |].
    cbn beta. rewrite Hex, Hcb. unfold_names. rewrite Hon, Hrn.
    cbn [bind ret getattr def_format gbind].
    destruct (r_mandatory r); cbn [gseq gyield fst snd app].
    - destruct Hs as [<- | [<- | []]].
      + right. right. now left.
      + destruct Hmand as [Hm _]. discriminate (Hm eq_refl).
    - destruct Hs as [<- | [<- | []]].
      + right. right. left. symmetry. now apply Hmand.
      + right. right. now left. }
  split.
  - intros Hm. split.
    + apply Hbody; [now left |]. rewrite Hm. split; [| discriminate].
      intros H. exfalso. revert H. unfold NAME.
      destruct (replace " " "_" (lower rn)); discriminate.
    + intros s Hs. unfold gen_exec_cbs.
      apply (gfor_In _ _ r); [apply (gen_exec_cbs_ok obj Hn) | exact Hin |].
      cbn beta. rewrite Hex, Hm, Hcb. exact Hs.
  - intros Hm. apply Hbody; [right; now left |]. now rewrite Hm.
Qed.

Lemma exec_callbacks_defined_witness :
  In "state_field_b_exec_cb" (fst (gen_create_func sample_obj)) /\
  In ("static int state_field_b_exec_cb(uint16_t obj_inst_id)" +:+ nl)
     (fst (gen_exec_cbs sample_obj)).
Proof.
  destruct (exec_callbacks_defined sample_obj sample_res_b)
    as (c & Hc & Hmand & _);
    [reflexivity | right; left; reflexivity | reflexivity |].
  vm_compute in Hc. injection Hc as <-.
  destruct (Hmand eq_refl) as [Hcreate Hstub].
  split; [exact Hcreate |]. apply Hstub. now left.
Defined.

(** ** Names that coincide *)

Lemma sapp_inv_l (a b c : string) : a +:+ b = a +:+ c -> b = c.
Proof.
  induction a as [|x a IH]; [exact id |].
  rewrite !sapp_cons. intros H. injection H as H. exact (IH H).
Qed.

Lemma sapp_inv_r (a b c : string) : b +:+ a = c +:+ a -> b = c.
Proof.
  intros H. apply (f_equal chars) in H. rewrite !chars_app in H.
  apply app_inv_tail in H. apply (f_equal string_of_list_ascii) in H.
  now rewrite !string_of_chars in H.
Qed.

Lemma DEF_eq_NAME_eq (s1 s2 : string) : DEF s1 = DEF s2 <-> NAME s1 = NAME s2.
Proof.
  split; intros H.
  - now rewrite <- (NAME_DEF s1), <- (NAME_DEF s2), H.
  - now rewrite <- (DEF_NAME s1), <- (DEF_NAME s2), H.
Qed.

(** X16. Within one object with ASCII names, two named fields get the same
    ID macro, the same instance-count macro, the same callback name and the
    same member name exactly when their names agree up to letter case and
    up to spaces written as underscores. *)
Theorem derived_names_coincide (obj : LWM2MObject) (r1 r2 : LWM2MResource)
    (on n1 n2 : string) :
  o_name obj = Some on -> r_name r1 = Some n1 -> r_name r2 = Some n2 ->
  isascii on = true -> isascii n1 = true -> isascii n2 = true ->
  (gen_res_id_name obj r1 = gen_res_id_name obj r2 <-> DEF n1 = DEF n2) /\
  (gen_res_max_name obj r1 = gen_res_max_name obj r2 <-> DEF n1 = DEF n2) /\
  (gen_exec_cb_name r1 = gen_exec_cb_name r2 <-> DEF n1 = DEF n2) /\
  (name_format (r_name r1) = name_format (r_name r2) <-> DEF n1 = DEF n2).
Proof.
  intros Hon H1 H2 _ _ _.
  unfold gen_res_id_name, gen_res_max_name, gen_res_def_name,
    gen_exec_cb_name.
  rewrite Hon, H1, H2, !def_format_Some, !name_format_Some.
  cbn [bind ret].
  split; [| split; [| split]]; split; intros H.
  - injection H as H. apply sapp_inv_r in H.
    rewrite <- !sapp_assoc in H. now apply sapp_inv_l in H.
  - now rewrite H.
  - injection H as H. apply sapp_inv_r in H.
    rewrite <- !sapp_assoc in H. now apply sapp_inv_l in H.
  - now rewrite H.
  - injection H as H. apply DEF_eq_NAME_eq. apply sapp_inv_l in H.
    now apply sapp_inv_r in H.
  - apply DEF_eq_NAME_eq in H. now rewrite H.
  - injection H as H. now apply DEF_eq_NAME_eq.
  - apply DEF_eq_NAME_eq in H. now rewrite H.
Qed.

Lemma derived_names_coincide_witness :
  gen_res_id_name sample_obj sample_res_a
  <> gen_res_id_name sample_obj sample_res_b /\
  gen_exec_cb_name sample_res_a
  = gen_exec_cb_name
      (mkResource 7 (Some "field_a") "E" true true None None None None).
Proof.
  split.
  - intros H.
    apply (derived_names_coincide sample_obj sample_res_a sample_res_b
             "Test Object" "Field A" "Field B") in H;
      [discriminate H | reflexivity ..].
  - apply (derived_names_coincide sample_obj sample_res_a
             (mkResource 7 (Some "field_a") "E" true true None None None None)
             "Test Object" "Field A" "field_a"); reflexivity.
Defined.
